(** * communex.cli._common: session context, record normalisation, tables

    A shallow embedding of [src/communex/cli/_common.py].

    - Python values are trees ([value]); a [dict] is an association list in
      insertion order, with the dictionary operations written over it.
    - The records handed to [transform_module_into] are mutable objects: they
      live in a [heap] and are passed by reference, so that [mod.copy()] and
      the item assignments that follow it can be told apart from writes to
      the caller's objects.
    - Exceptions are values of [exn]; fallible code returns [result].
    - The collaborators that are imported from other modules
      ([from_nano], [from_horus], [get_node_url], [CommuneClient]) and the
      float arithmetic of the interpreter are parameters: the classes
      [Numerics] and [NodeService].
    - Nested values are trees.  [transform_module_into] and
      [print_module_info] write to the top-level items of a record only;
      [tranform_network_params] writes into a nested dictionary, which is
      modelled as seen through the record it is given. *)

From Stdlib Require Import ZArith List String Ascii Bool Lia Arith.
From Stdlib Require Import DecimalString.
Import ListNotations.

Local Open Scope string_scope.
Local Open Scope Z_scope.
Local Open Scope list_scope.

(** ** Python values and exceptions *)

(** A float is kept as the 64-bit pattern of its IEEE-754 binary64 datum. *)
#[warnings="-register-all"]
Inductive value : Type :=
| VNone
| VBool (b : bool)
| VInt (n : Z)
| VFloat (bits : Z)
| VStr (s : string)
| VList (items : list value)
| VDict (items : list (string * value)).

Definition dict : Type := list (string * value).

(** The exceptions the module raises or lets through.  [BaseExc] stands for
    the exceptions that do not derive from [Exception] (KeyboardInterrupt,
    SystemExit): an [except Exception] clause does not catch them. *)
Inductive exn : Type :=
| KeyError (key : string)
| TypeError (msg : string)
| ValueError (msg : string)
| ConnectionError (msg : string)
| OtherExc (name : string)
| BaseExc (name : string).

Definition is_Exception (e : exn) : bool :=
  match e with
  | BaseExc _ => false
  | _ => true
  end.

Inductive result (A : Type) : Type :=
| Ok (a : A)
| Err (e : exn).

Arguments Ok {A} a.
Arguments Err {A} e.

(** [value is None] *)
Definition is_none (v : value) : bool :=
  match v with
  | VNone => true
  | _ => false
  end.

(** ** Dictionaries *)

Module Dict.

(** [d.get(k)], as an option: [None] when the key is missing. *)
Fixpoint lookup (k : string) (d : dict) : option value :=
  match d with
  | [] => None
  | (k', v) :: rest => if String.eqb k k' then Some v else lookup k rest
  end.

(** [k in d] *)
Definition mem (k : string) (d : dict) : bool :=
  match lookup k d with
  | Some _ => true
  | None => false
  end.

(** [d[k] = v]: an existing key keeps its position, a new key goes last. *)
Fixpoint set (k : string) (v : value) (d : dict) : dict :=
  match d with
  | [] => [(k, v)]
  | (k', v') :: rest =>
      if String.eqb k k' then (k', v) :: rest else (k', v') :: set k v rest
  end.

(** The entries left by [del d[k]] when the key is there. *)
Definition remove (k : string) (d : dict) : dict :=
  filter (fun kv => negb (String.eqb k (fst kv))) d.

(** [d.get(k)]: Python's default is [None]. *)
Definition get (k : string) (d : dict) : value :=
  match lookup k d with
  | Some v => v
  | None => VNone
  end.

(** [d[k]] *)
Definition getitem (k : string) (d : dict) : result value :=
  match lookup k d with
  | Some v => Ok v
  | None => Err (KeyError k)
  end.

(** [del d[k]] *)
Definition delitem (k : string) (d : dict) : result dict :=
  if mem k d then Ok (remove k d) else Err (KeyError k).

Definition keys (d : dict) : list string := map fst d.
Definition values (d : dict) : list value := map snd d.

End Dict.

(** ** [remove_none_values] (lines 306-319) *)

(** The loop of lines 312-318 over [data.items()], with [cleaned] the
    dictionary built so far and [rec] the recursive call of line 314.  The
    test of line 315 compares a dictionary with [None] and always passes. *)
Definition remove_none_loop (rec : value -> dict) :=
  fix loop (items : list (string * value)) (cleaned : dict) {struct items} : dict :=
    match items with
    | [] => cleaned
    | (key, val) :: rest =>
        match val with
        | VDict _ => loop rest (Dict.set key (VDict (rec val)) cleaned)
        | VNone => loop rest cleaned
        | _ => loop rest (Dict.set key val cleaned)
        end
    end.

Fixpoint remove_none_values_of (v : value) : dict :=
  match v with
  | VDict data => remove_none_loop remove_none_values_of data []
  | _ => []
  end.

Definition remove_none_values (data : dict) : dict :=
  remove_none_loop remove_none_values_of data [].

(** The value the loop stores for an entry that is not [None]. *)
Definition stored (v : value) : value :=
  match v with
  | VDict inner => VDict (remove_none_values inner)
  | _ => v
  end.

(** What one key of the result holds, read off the input: the specification
    of section 4.5 for a single key. *)
Definition cleaned_entry (o : option value) : option value :=
  match o with
  | None => None
  | Some VNone => None
  | Some (VDict inner) => Some (VDict (remove_none_values inner))
  | Some v => Some v
  end.

(** No key is bound to [None], at any depth of nested dictionaries.  A list
    is taken as it is: what it holds is not looked at. *)
Fixpoint none_free (v : value) : bool :=
  match v with
  | VDict items =>
      forallb (fun kv => negb (is_none (snd kv)) && none_free (snd kv)) items
  | _ => true
  end.

(** The keys are pairwise distinct. *)
Fixpoint distinct_keys (ks : list string) : bool :=
  match ks with
  | [] => true
  | k :: rest => negb (existsb (String.eqb k) rest) && distinct_keys rest
  end.

(** The same at every depth of nested dictionaries. *)
Fixpoint well_keyed (v : value) : bool :=
  match v with
  | VDict items =>
      distinct_keys (map fst items) && forallb (fun kv => well_keyed (snd kv)) items
  | _ => true
  end.

(** A value that may be stored under a key of a cleaned dictionary. *)
Definition clean (v : value) : Prop :=
  is_none v = false /\ none_free v = true /\ well_keyed v = true.

Definition clean_dict (d : dict) : Prop :=
  NoDup (Dict.keys d) /\ Forall (fun kv => clean (snd kv)) d.

(** There is no [None] anywhere in the value: not under a key, not in a
    list, at any depth. *)
Fixpoint null_free (v : value) : bool :=
  match v with
  | VNone => false
  | VList items => forallb null_free items
  | VDict items => forallb (fun kv => null_free (snd kv)) items
  | _ => true
  end.

(** The value holds no list, at any depth of nested dictionaries. *)
Fixpoint list_free (v : value) : bool :=
  match v with
  | VList _ => false
  | VDict items => forallb (fun kv => list_free (snd kv)) items
  | _ => true
  end.

(** ** [print_table_standardize] (lines 170-183) *)

(** The table handed to the console, as the calls made on it leave it:
    [add_column] appends a header, [add_row] appends a row of cells.  The
    cells are what the caller passes; [add_row] takes the cells that the
    console library can render and raises on any other. *)
Record Table (C : Type) : Type := mkTable {
  tbl_title : option string;
  tbl_columns : list string;
  tbl_rows : list (list C);
  tbl_caption : option string
}.

Arguments mkTable {C} _ _ _ _.
Arguments tbl_title {C} _.
Arguments tbl_columns {C} _.
Arguments tbl_rows {C} _.
Arguments tbl_caption {C} _.

(** The exception of [add_row] on a cell that cannot be rendered. *)
Definition not_renderable : exn := OtherExc "NotRenderableError".

(** A table, or the exception raised while it was built. *)
Definition rendered (C : Type) : Type := result (Table C).

Section Zip.
Variable A : Type.

(** The cells that the console library renders: text, and not an integer. *)
Variable renderable : A -> bool.

(** One [next()] on each iterator, in order: [None] as soon as one of
    them is exhausted. *)
Fixpoint heads (rows : list (list A)) : option (list A) :=
  match rows with
  | [] => Some []
  | [] :: _ => None
  | (x :: _) :: rest =>
      match heads rest with
      | Some r => Some (x :: r)
      | None => None
      end
  end.

Fixpoint zip_from (first : list A) (others : list (list A)) : list (list A) :=
  match first with
  | [] => []
  | x :: first' =>
      match heads others with
      | Some r => (x :: r) :: zip_from first' (map (@tl A) others)
      | None => []
      end
  end.

(** The comprehension of line 179: [zip] over the unpacked [rows], each
    tuple turned into a list; [zip()] of no iterable is empty. *)
Definition zip_star (rows : list (list A)) : list (list A) :=
  match rows with
  | [] => []
  | first :: others => zip_from first others
  end.

(** Lines 180-181: the rows are added one by one, and [add_row] raises on
    the first row with a cell that cannot be rendered. *)
Fixpoint add_rows (zipped_rows rows : list (list A)) : result (list (list A)) :=
  match zipped_rows with
  | [] => Ok rows
  | row :: rest =>
      if forallb renderable row
      then add_rows rest (rows ++ [row])
      else Err not_renderable
  end.

Definition print_table_standardize (result : list (string * list A)) : rendered A :=
  let columns := map fst result in
  let rows := map snd result in
  let zipped_rows := zip_star rows in
  match add_rows zipped_rows [] with
  | Ok added => Ok (mkTable None columns added None)
  | Err e => Err e
  end.

(** The cell of every sequence at index [i], when all of them have one. *)
Fixpoint cells_at (i : nat) (rows : list (list A)) : option (list A) :=
  match rows with
  | [] => Some []
  | col :: rest =>
      match nth_error col i, cells_at i rest with
      | Some x, Some r => Some (x :: r)
      | _, _ => None
      end
  end.

Definition shortest (rows : list (list A)) : nat :=
  match rows with
  | [] => O
  | first :: others =>
      fold_left (fun m col => Nat.min m (List.length col)) others (List.length first)
  end.

End Zip.

Arguments heads {A} rows.
Arguments zip_from {A} first others.
Arguments zip_star {A} rows.
Arguments add_rows {A} renderable zipped_rows rows.
Arguments print_table_standardize {A} renderable result.
Arguments cells_at {A} i rows.
Arguments shortest {A} rows.

(** ** Mutable dictionaries and the heap of record objects *)

(** Computations that read and write a store [S] and may raise; a write
    made before an exception stays. *)
Definition St (S A : Type) : Type := S -> result A * S.

Definition ret {S A : Type} (a : A) : St S A := fun s => (Ok a, s).

Definition raise {S A : Type} (e : exn) : St S A := fun s => (Err e, s).

Definition bind {S A B : Type} (m : St S A) (f : A -> St S B) : St S B :=
  fun s =>
    match m s with
    | (Ok a, s') => f a s'
    | (Err e, s') => (Err e, s')
    end.

Definition lift {S A : Type} (r : result A) : St S A := fun s => (r, s).

Notation "x <- m ;; k" := (bind m (fun x => k))
  (at level 61, m at next level, right associativity).
Notation "m ;;; k" := (bind m (fun _ => k))
  (at level 61, right associativity).

(** The operations on one dictionary object. *)
Module Item.

Definition getitem (k : string) : St dict value := fun d => (Dict.getitem k d, d).
Definition get (k : string) : St dict value := fun d => (Ok (Dict.get k d), d).
Definition keys : St dict (list string) := fun d => (Ok (Dict.keys d), d).
Definition values : St dict (list value) := fun d => (Ok (Dict.values d), d).
Definition setitem (k : string) (v : value) : St dict unit :=
  fun d => (Ok tt, Dict.set k v d).
Definition delitem (k : string) : St dict unit :=
  fun d =>
    match Dict.delitem k d with
    | Ok d' => (Ok tt, d')
    | Err e => (Err e, d)
    end.

End Item.

(** A record is an object of the heap and is handed around by reference. *)
Definition ref : Type := nat.
Definition heap : Type := list dict.
Definition M (A : Type) : Type := St heap A.

Fixpoint list_update {A : Type} (n : nat) (x : A) (l : list A) : list A :=
  match l, n with
  | [], _ => []
  | _ :: rest, O => x :: rest
  | y :: rest, S n' => y :: list_update n' x rest
  end.

Module Obj.

(** Every reference a program holds points into the heap; the error case
    only makes the functions total. *)
Definition dangling : exn := OtherExc "dangling reference".

(** Statements that act on the object behind [r]. *)
Definition on {A : Type} (r : ref) (body : St dict A) : M A :=
  fun h =>
    match nth_error h r with
    | Some d => let (res, d') := body d in (res, list_update r d' h)
    | None => (Err dangling, h)
    end.

(** [r.copy()]: a new object with the same items. *)
Definition copy (r : ref) : M ref :=
  fun h =>
    match nth_error h r with
    | Some d => (Ok (List.length h), h ++ [d])
    | None => (Err dangling, h)
    end.

End Obj.

(** ** The numeric collaborators *)

(** [from_nano] and [from_horus] are imported from [communex.balance];
    [round], [str] and the arithmetic on anything but two integers belong to
    the interpreter.  On two integers [+] and [>] are exact. *)
Class Numerics : Type := {
  from_nano : value -> result value;
  from_horus : value -> Z -> result value;
  py_round : value -> Z -> result value;
  add_other : value -> value -> result value;
  gt_other : value -> value -> result value;
  py_str : value -> string
}.

Definition py_add `{Numerics} (a b : value) : result value :=
  match a, b with
  | VInt x, VInt y => Ok (VInt (x + y))
  | _, _ => add_other a b
  end.

Definition py_gt `{Numerics} (a b : value) : result value :=
  match a, b with
  | VInt x, VInt y => Ok (VBool (y <? x))
  | _, _ => gt_other a b
  end.

(** ** [transform_module_into] (lines 186-214) *)

Section Transform.
Context `{Numerics}.

(** Lines 198-199: [for key in to_exclude: del module[key]]. *)
Fixpoint delete_keys (to_exclude : list string) : St dict unit :=
  match to_exclude with
  | [] => ret tt
  | key :: rest => Item.delitem key ;;; delete_keys rest
  end.

(** Lines 207-211. *)
Definition convert_balance : St dict unit :=
  balance <- Item.get "balance" ;;
  if is_none balance
  then Item.delitem "balance"
  else
    raw <- Item.getitem "balance" ;;
    converted <- lift (from_nano raw) ;;
    Item.setitem "balance" converted.

(** Lines 195-211, the statements on the object [module]. *)
Definition normalize_module (to_exclude : list string)
    (last_block immunity_period tempo : Z) : St dict unit :=
  module_regblock <- Item.getitem "regblock" ;;
  deadline <- lift (py_add module_regblock (VInt immunity_period)) ;;
  in_immunity <- lift (py_gt deadline (VInt last_block)) ;;
  Item.setitem "in_immunity" in_immunity ;;;
  delete_keys to_exclude ;;;
  stake <- Item.getitem "stake" ;;
  stake_units <- lift (from_nano stake) ;;
  stake_rounded <- lift (py_round stake_units 2) ;;
  Item.setitem "stake" stake_rounded ;;;
  emission <- Item.getitem "emission" ;;
  emission_units <- lift (from_horus emission tempo) ;;
  emission_rounded <- lift (py_round emission_units 4) ;;
  Item.setitem "emission" emission_rounded ;;;
  convert_balance.

(** One turn of the loop, lines 194-211: the reference of the copy. *)
Definition transform_module (to_exclude : list string)
    (last_block immunity_period tempo : Z) (mod_ : ref) : M ref :=
  module <- Obj.copy mod_ ;;
  Obj.on module (normalize_module to_exclude last_block immunity_period tempo) ;;;
  ret module.

(** Lines 193-212, with [transformed_modules] the list built so far. *)
Fixpoint transform_loop (to_exclude : list string)
    (last_block immunity_period tempo : Z)
    (mods : list ref) (transformed_modules : list ref) : M (list ref) :=
  match mods with
  | [] => ret transformed_modules
  | mod_ :: rest =>
      module <- transform_module to_exclude last_block immunity_period tempo mod_ ;;
      transform_loop to_exclude last_block immunity_period tempo rest
        (transformed_modules ++ [module])
  end.

Definition transform_module_into (to_exclude : list string)
    (last_block immunity_period : Z) (modules : list ref) (tempo : Z)
    : M (list ref) :=
  transform_loop to_exclude last_block immunity_period tempo modules [].

(** [o] is the display record made from the record [r]. *)
Definition display_record_of (to_exclude : list string)
    (last_block immunity_period tempo : Z) (h' : heap) (r o : ref) : Prop :=
  exists d d',
    nth_error h' r = Some d /\ nth_error h' o = Some d'
    /\ normalize_module to_exclude last_block immunity_period tempo d = (Ok tt, d').

(** The statements of lines 195-211 raise nothing on the record [r]. *)
Definition normalizable (to_exclude : list string)
    (last_block immunity_period tempo : Z) (h : heap) (r : ref) : Prop :=
  exists d d',
    nth_error h r = Some d
    /\ normalize_module to_exclude last_block immunity_period tempo d = (Ok tt, d').

End Transform.

(** ** [print_module_info] (lines 217-276) *)

(** Modelled from the spec: the query methods of the connection service
    ([communex.client.CommuneClient], section 6): [getBlock] gives the header
    number of the current block or nothing, [getImmunityPeriod] and [getTempo]
    an integer for a netuid. *)
Record ChainClient : Type := {
  get_block : option Z;
  get_immunity_period : Z -> Z;
  get_tempo : Z -> Z
}.

Section PrintModuleInfo.
Context `{Numerics}.

(** The running totals and the rows added so far (lines 260-271). *)
Record Totals : Type := mkTotals {
  total_stake : value;
  total_balance : value;
  added_rows : list (list string)
}.

(** One turn of the loop of lines 263-271. *)
Definition add_module_row (acc : Totals) (mod_ : ref) : M Totals :=
  stake <- Obj.on mod_ (Item.getitem "stake") ;;
  total_stake' <- lift (py_add (total_stake acc) stake) ;;
  balance <- Obj.on mod_ (Item.get "balance") ;;
  total_balance' <-
    (if is_none balance
     then ret (total_balance acc)
     else
       present <- Obj.on mod_ (Item.getitem "balance") ;;
       lift (py_add (total_balance acc) present)) ;;
  vals <- Obj.on mod_ Item.values ;;
  ret (mkTotals total_stake' total_balance' (added_rows acc ++ [map py_str vals])).

Fixpoint add_module_rows (acc : Totals) (mods : list ref) : M Totals :=
  match mods with
  | [] => ret acc
  | mod_ :: rest => acc' <- add_module_row acc mod_ ;; add_module_rows acc' rest
  end.

(** The text of line 273. *)
Definition caption_text (total : value) : string :=
  ("total balance: " ++ (py_str total ++ "J"))%string.

(** The table printed on the console, or [None] when nothing is printed. *)
Definition print_module_info (client : ChainClient) (modules : list ref)
    (netuid : Z) (title : option string) : M (option (Table string)) :=
  match modules with
  | [] => ret None
  | _ :: _ =>
      match get_block client with
      | None => raise (ValueError "Could not get block info")
      | Some last_block =>
          let immunity_period := get_immunity_period client netuid in
          let tempo := get_tempo client netuid in
          let to_exclude := ["stake_from"; "last_update"; "regblock"] in
          tranformed_modules <-
            transform_module_into to_exclude last_block immunity_period modules tempo ;;
          match tranformed_modules with
          | [] => raise (OtherExc "IndexError")
          | sample_mod :: _ =>
              columns <- Obj.on sample_mod Item.keys ;;
              acc <- add_module_rows (mkTotals (VInt 0) (VInt 0) []) tranformed_modules ;;
              total <- lift (py_add (total_balance acc) (total_stake acc)) ;;
              ret (Some (mkTable title columns (added_rows acc)
                           (Some (caption_text total))))
          end
      end
  end.

(** The step of the running sums: [acc += v]. *)
Definition add_step (acc : result value) (v : value) : result value :=
  match acc with
  | Ok a => py_add a v
  | Err e => Err e
  end.

(** The sum the caption is specified with: the values added from left to
    right, starting from the integer 0. *)
Definition sum_values (vs : list value) : result value :=
  fold_left add_step vs (Ok (VInt 0)).

(** The stakes of the records, and the balances of those that have one. *)
Definition stakes_of (records : list dict) : list value :=
  map (Dict.get "stake") records.

Definition present_balances_of (records : list dict) : list value :=
  filter (fun v => negb (is_none v)) (map (Dict.get "balance") records).

End PrintModuleInfo.

(** ** [CustomCtx.com_client] (lines 63-87) *)

(** [get_node_url] is imported from [communex._common] and [CommuneClient]
    from [communex.client]: both act on the world outside the program, which
    is threaded through them.  The constructor gives a client or raises. *)
Class NodeService : Type := {
  Client : Type;
  World : Type;
  get_node_url : bool -> World -> string * World;
  CommuneClient : string -> Z -> bool -> World -> result Client * World
}.

(** What the call does that can be seen from outside: the texts given to
    [status.update] and the constructor calls. *)
Inductive event : Type :=
| StatusUpdate (msg : string)
| Construct (url : string).

Definition is_construct (e : event) : bool :=
  match e with
  | Construct _ => true
  | StatusUpdate _ => false
  end.

Section ComClient.
Context `{NodeService}.

Record CustomCtx : Type := mkCtx {
  _com_client : option Client;
  use_json_output : bool;
  use_yes_to_all : bool;
  use_testnet : bool;
  interactive : bool;
  color : bool
}.

Record Session : Type := mkSession {
  self : CustomCtx;
  world : World;
  events : list event
}.

Definition set_com_client (c : CustomCtx) (client : option Client) : CustomCtx :=
  mkCtx client (use_json_output c) (use_yes_to_all c) (use_testnet c)
    (interactive c) (color c).

Definition emit (e : event) (s : Session) : Session :=
  mkSession (self s) (world s) (events s ++ [e]).

Definition decimal (n : nat) : string := NilZero.string_of_uint (Nat.to_uint n).

Definition connecting (node_url : string) : string :=
  ("Connecting to node " ++ (node_url ++ "..."))%string.

Definition retrying (node_url : string) (current : nat) : string :=
  ("Connecting to node "
   ++ (node_url ++ (" (" ++ (decimal current ++ "/5 retries)..."))))%string.

(** The loop of lines 72-82 over the remaining values of [current]: an
    exception that [except Exception] does not catch, if one came out. *)
Fixpoint connect_loop (node_url : string) (currents : list nat) (s : Session)
    : option exn * Session :=
  match currents with
  | [] => (None, s)
  | current :: rest =>
      let s1 := emit (StatusUpdate (connecting node_url)) s in
      let s2 := emit (Construct node_url) s1 in
      match CommuneClient node_url 1 false (world s2) with
      | (Ok client, w) =>
          (None, mkSession (set_com_client (self s2) (Some client)) w (events s2))
      | (Err e, w) =>
          let s3 := mkSession (self s2) w (events s2) in
          if is_Exception e
          then connect_loop node_url rest
                 (emit (StatusUpdate (retrying node_url current)) s3)
          else (Some e, s3)
      end
  end.

Definition com_client (s : Session) : result Client * Session :=
  let use_testnet := use_testnet (self s) in
  match _com_client (self s) with
  | Some client => (Ok client, s)
  | None =>
      let (node_url, w) := get_node_url use_testnet (world s) in
      match connect_loop node_url (seq 1 5) (mkSession (self s) w (events s)) with
      | (Some e, s') => (Err e, s')
      | (None, s') =>
          match _com_client (self s') with
          | None => (Err (ConnectionError "Could not connect to any node"), s')
          | Some client => (Ok client, s')
          end
      end
  end.

(** The node URL the call resolves on line 69. *)
Definition target_url (s : Session) : string :=
  fst (get_node_url (use_testnet (self s)) (world s)).

Definition attempts (s : Session) : nat :=
  List.length (filter is_construct (events s)).

(** The constructor raises, with an exception that [except Exception]
    catches, whatever the URL and the state of the world. *)
Definition always_fails : Prop :=
  forall url n b w, exists e w',
    CommuneClient url n b w = (Err e, w') /\ is_Exception e = true.

(** The world after [n] calls of the constructor on [node_url], with the
    arguments of lines 76-77, one call after the other. *)
Fixpoint world_after_calls (node_url : string) (n : nat) (w : World) : World :=
  match n with
  | O => w
  | S n' => world_after_calls node_url n' (snd (CommuneClient node_url 1 false w))
  end.

(** Call number [i] (from 0) of such a row of calls raises an [Exception]. *)
Definition call_fails (node_url : string) (w : World) (i : nat) : Prop :=
  exists e,
    fst (CommuneClient node_url 1 false (world_after_calls node_url i w)) = Err e
    /\ is_Exception e = true.

(** The events of the turns of the loop in which the constructor raises an
    [Exception]: the status text, the call, the status text of the retry. *)
Definition retry_events (node_url : string) (currents : list nat) : list event :=
  flat_map
    (fun current =>
       [StatusUpdate (connecting node_url); Construct node_url;
        StatusUpdate (retrying node_url current)])
    currents.

End ComClient.

(** [needle in hay] for two strings. *)
Fixpoint includes (needle hay : string) : bool :=
  if String.prefix needle hay then true
  else match hay with
       | EmptyString => false
       | String _ hay' => includes needle hay'
       end.
(** ** Samples *)

Definition nested_example : dict :=
  [("a", VInt 1); ("b", VNone); ("c", VDict [("d", VNone); ("e", VInt 2)])].

(** A dictionary with a list that holds [None] and a dictionary. *)
Definition listed_example : dict :=
  [("h", VList [VNone; VDict [("x", VNone)]]); ("k", VNone)].


(** The sequences of section 8, as text and as integers. *)
Definition uneven_columns : list (string * list string) :=
  [("x", ["1"; "2"]); ("y", ["3"; "4"; "5"])].

Definition uneven_integers : list (string * list value) :=
  [("x", [VInt 1; VInt 2]); ("y", [VInt 3; VInt 4; VInt 5])].

(** Every text is rendered. *)
Definition any_text (cell : string) : bool := true.

(** Of the values of this file the console library renders a string, and
    [None] as an empty cell; it refuses the others. *)
Definition renders (v : value) : bool :=
  match v with
  | VStr _ => true
  | VNone => true
  | _ => false
  end.

(** A node that refuses every connection: the constructor raises each time
    and the world counts the calls. *)
Definition unreachable_service : NodeService := {|
  Client := unit;
  World := nat;
  get_node_url := fun testnet w =>
    (if testnet then "wss://testnet.example:443" else "wss://mainnet.example:443", w);
  CommuneClient := fun _ _ _ w => (Err (OtherExc "ConnectionRefusedError"), S w)
|}.

Definition fresh_session : @Session unreachable_service :=
  @mkSession unreachable_service
    (@mkCtx unreachable_service None false false false true true) O [].

(** binary64 on the whole numbers from 0 to 2^53, where the arithmetic of
    the interpreter is exact.  [from_nano] divides by 10^9; the samples only
    use amounts that are a whole number of units, and an emission of 0. *)
Module Whole.

Definition limit : Z := 2 ^ 53.

(** The bit pattern of the float equal to [n]. *)
Definition encode (n : Z) : Z :=
  if n =? 0 then 0
  else let e := Z.log2 n in (e + 1023) * 2 ^ 52 + (n * 2 ^ (52 - e) - 2 ^ 52).

Definition decode (bits : Z) : Z :=
  if bits =? 0 then 0
  else let e := bits / 2 ^ 52 - 1023 in (bits mod 2 ^ 52 + 2 ^ 52) / 2 ^ (52 - e).

Definition outside {A : Type} : result A := Err (OtherExc "outside the sample").

Definition float_of (n : Z) : result value :=
  if (0 <=? n) && (n <? limit) then Ok (VFloat (encode n)) else outside.

Definition from_nano (v : value) : result value :=
  match v with
  | VInt n => if n mod 10 ^ 9 =? 0 then float_of (n / 10 ^ 9) else outside
  | _ => outside
  end.

Definition from_horus (v : value) (tempo : Z) : result value :=
  match v with
  | VInt 0 => if tempo =? 0 then Err (OtherExc "ZeroDivisionError") else Ok (VFloat 0)
  | _ => outside
  end.

Definition round (v : value) (ndigits : Z) : result value :=
  match v with
  | VFloat bits => Ok (VFloat bits)
  | VInt n => Ok (VInt n)
  | _ => outside
  end.

Definition add (a b : value) : result value :=
  match a, b with
  | VInt x, VFloat y => float_of (x + decode y)
  | VFloat x, VInt y => float_of (decode x + y)
  | VFloat x, VFloat y => float_of (decode x + decode y)
  | _, _ => outside
  end.

Definition gt (a b : value) : result value := outside.

Definition decimal (n : Z) : string := NilZero.string_of_int (Z.to_int n).

Definition str (v : value) : string :=
  match v with
  | VNone => "None"
  | VBool true => "True"
  | VBool false => "False"
  | VInt n => decimal n
  | VFloat bits => (decimal (decode bits) ++ ".0")%string
  | VStr s => s
  | VList _ => "[...]"
  | VDict _ => "{...}"
  end.

End Whole.

Definition whole_numerics : Numerics := {|
  from_nano := Whole.from_nano;
  from_horus := Whole.from_horus;
  py_round := Whole.round;
  add_other := Whole.add;
  gt_other := Whole.gt;
  py_str := Whole.str
|}.

(** A heap with two module records, the second without a balance. *)
Definition funded_module : dict :=
  [("uid", VInt 0); ("name", VStr "alpha"); ("regblock", VInt 100);
   ("stake_from", VList []); ("last_update", VInt 120);
   ("stake", VInt 2000000000); ("emission", VInt 0);
   ("balance", VInt 5000000000)].

Definition unfunded_module : dict :=
  [("uid", VInt 1); ("name", VStr "beta"); ("regblock", VInt 100);
   ("stake_from", VList []); ("last_update", VInt 130);
   ("stake", VInt 3000000000); ("emission", VInt 0);
   ("balance", VNone)].

Definition two_modules : heap := [funded_module; unfunded_module].

Definition display_exclusions : list string := ["stake_from"; "last_update"; "regblock"].

(** A record with one key more than [funded_module], and one that has no
    "balance" key. *)
Definition annotated_module : dict :=
  [("uid", VInt 2); ("name", VStr "gamma"); ("regblock", VInt 100);
   ("stake_from", VList []); ("last_update", VInt 135);
   ("stake", VInt 1000000000); ("emission", VInt 0);
   ("balance", VInt 4000000000); ("delegation_fee", VInt 20)].

Definition balanceless_module : dict :=
  [("uid", VInt 3); ("name", VStr "delta"); ("regblock", VInt 100);
   ("stake_from", VList []); ("last_update", VInt 138);
   ("stake", VInt 1000000000); ("emission", VInt 0)].

Definition display_run (last_block : Z) (h : heap) (modules : list ref)
    : result (list ref) * heap :=
  @transform_module_into whole_numerics display_exclusions last_block 50 modules 100 h.

Definition sample_client : ChainClient := {|
  get_block := Some 140;
  get_immunity_period := fun _ => 50;
  get_tempo := fun _ => 100
|}.

Definition sample_table : Table string :=
  mkTable None
    ["uid"; "name"; "stake"; "emission"; "balance"; "in_immunity"]
    [["0"; "alpha"; "2.0"; "0.0"; "5.0"; "True"];
     ["1"; "beta"; "3.0"; "0.0"; "True"]]
    (Some "total balance: 10.0J").

Definition sample_print : result (option (Table string)) * heap :=
  @print_module_info whole_numerics sample_client [0; 1]%nat 0 None two_modules.

(** ** Runs of [com_client] *)

Definition is_status (e : event) : bool := negb (is_construct e).

(** The event is about the node [node_url]: a constructor call on it, or a
    status text that contains it. *)
Definition mentions (node_url : string) (e : event) : bool :=
  match e with
  | StatusUpdate msg => includes node_url msg
  | Construct url => String.eqb url node_url
  end.

Section ComClientRuns.
Context `{NodeService}.

Definition status_updates (s : Session) : nat :=
  List.length (filter is_status (events s)).

(** The option flags of two contexts agree. *)
Definition same_flags (c c' : CustomCtx) : Prop :=
  use_json_output c' = use_json_output c
  /\ use_yes_to_all c' = use_yes_to_all c
  /\ use_testnet c' = use_testnet c
  /\ interactive c' = interactive c
  /\ color c' = color c.

(** From the world [w] the constructor raises an [Exception] [k] times on
    [node_url], then gives the client [c] and leaves the world [w']. *)
Inductive fails_then_connects (node_url : string)
    : nat -> World -> Client -> World -> Prop :=
| connects_now (w w' : World) (c : Client) :
    CommuneClient node_url 1 false w = (Ok c, w') ->
    fails_then_connects node_url O w c w'
| fails_once (k : nat) (w w1 w' : World) (e : exn) (c : Client) :
    CommuneClient node_url 1 false w = (Err e, w1) ->
    is_Exception e = true ->
    fails_then_connects node_url k w1 c w' ->
    fails_then_connects node_url (S k) w c w'.

End ComClientRuns.

(** A node that refuses the first four connections and accepts the fifth;
    the world counts the calls and the client is the URL it is bound to. *)
Definition flaky_service : NodeService := {|
  Client := string;
  World := nat;
  get_node_url := fun testnet w =>
    (if testnet then "wss://testnet.example:443" else "wss://mainnet.example:443", w);
  CommuneClient := fun url _ _ w =>
    (if Nat.ltb w 4 then Err (OtherExc "TimeoutError") else Ok url, S w)
|}.

Definition flaky_session : @Session flaky_service :=
  @mkSession flaky_service
    (@mkCtx flaky_service None false false true true true) O [].

(** ** The items of a display record *)

(** What lines 195-211 need of a record [d] and leave in its copy [d'],
    item by item. *)
Record display_fields `{Numerics} (to_exclude : list string) (tempo : Z)
    (d d' : dict) : Prop := mk_display_fields {
  df_distinct : NoDup to_exclude;
  df_present : forall k, In k to_exclude ->
                 k = "in_immunity" \/ Dict.lookup k d <> None;
  df_stake_kept : ~ In "stake" to_exclude;
  df_emission_kept : ~ In "emission" to_exclude;
  df_balance_kept : ~ In "balance" to_exclude;
  df_regblock : Dict.lookup "regblock" d <> None;
  df_stake : exists stake stake_units stake_rounded,
               Dict.lookup "stake" d = Some stake
               /\ from_nano stake = Ok stake_units
               /\ py_round stake_units 2 = Ok stake_rounded
               /\ Dict.lookup "stake" d' = Some stake_rounded;
  df_emission : exists emission emission_units emission_rounded,
                  Dict.lookup "emission" d = Some emission
                  /\ from_horus emission tempo = Ok emission_units
                  /\ py_round emission_units 4 = Ok emission_rounded
                  /\ Dict.lookup "emission" d' = Some emission_rounded;
  df_balance : exists raw,
                 Dict.lookup "balance" d = Some raw
                 /\ (Dict.lookup "balance" d' = None <-> is_none raw = true);
  df_in_immunity : ~ In "in_immunity" to_exclude ->
                   Dict.lookup "in_immunity" d' <> None;
  df_gone : forall k, In k to_exclude -> Dict.lookup k d' = None;
  df_rest : forall k, ~ In k to_exclude -> k <> "in_immunity" -> k <> "stake" ->
              k <> "emission" -> k <> "balance" ->
              Dict.lookup k d' = Dict.lookup k d
}.

(** ** The table of [print_module_info] *)

(** A computation that leaves the heap as it found it, whatever it
    returns or raises. *)
Definition read_only {A : Type} (m : M A) : Prop :=
  forall h, snd (m h) = h.

(** The row that lines 268-271 add for a display record. *)
Definition row_of `{Numerics} (d : dict) : list string :=
  map py_str (Dict.values d).

(** A client whose node gives no block. *)
Definition blockless_client : ChainClient := {|
  get_block := None;
  get_immunity_period := fun _ => 50;
  get_tempo := fun _ => 100
|}.

(** ** What [remove_none_values] keeps, in order *)

(** The entries that are not [None], in the order of the input, nested
    dictionaries cleaned. *)
Fixpoint kept_items (data : dict) : dict :=
  match data with
  | [] => []
  | (key, val) :: rest =>
      if is_none val then kept_items rest else (key, stored val) :: kept_items rest
  end.

(** ** [print_table_from_plain_dict] (lines 141-166) *)

(** A cell of the table is a text or a table of its own. *)
Inductive cell : Type :=
| CText (text : string)
| CTable (subtable : Table string).

(** [str(x)] and [f"{x}"]: a string stands for itself, the text of any
    other value is the parameter [py_str]. *)
Definition py_text `{Numerics} (v : value) : string :=
  match v with
  | VStr s => s
  | _ => py_str v
  end.

Section PlainDict.
Context `{Numerics}.

(** Lines 154-156: the rows of the values that are not dictionaries. *)
Fixpoint plain_rows (items : dict) (rows : list (list cell)) : list (list cell) :=
  match items with
  | [] => rows
  | (key, val) :: rest =>
      match val with
      | VDict _ => plain_rows rest rows
      | _ => plain_rows rest (rows ++ [[CText key; CText (py_text val)]])
      end
  end.

(** Lines 162-163: the rows of a subtable. *)
Fixpoint subtable_rows (items : dict) (rows : list (list string)) : list (list string) :=
  match items with
  | [] => rows
  | (subkey, subvalue) :: rest =>
      subtable_rows rest (rows ++ [[(subkey ++ (": " ++ py_text subvalue))%string]])
  end.

(** Lines 159-164: the rows of the values that are dictionaries. *)
Fixpoint nested_rows (items : dict) (rows : list (list cell)) : list (list cell) :=
  match items with
  | [] => rows
  | (key, val) :: rest =>
      match val with
      | VDict inner =>
          let subtable := mkTable None [] (subtable_rows inner []) None in
          nested_rows rest (rows ++ [[CText key; CTable subtable]])
      | _ => nested_rows rest rows
      end
  end.

Definition print_table_from_plain_dict (result : dict) (column_names : list string)
    : Table cell :=
  let columns := fold_left (fun cols name => cols ++ [name]) column_names [] in
  mkTable None columns (nested_rows result (plain_rows result [])) None.

Definition is_dict (v : value) : bool :=
  match v with
  | VDict _ => true
  | _ => false
  end.

(** The row of one item of the dictionary. *)
Definition item_row (kv : string * value) : list cell :=
  match snd kv with
  | VDict inner =>
      [CText (fst kv);
       CTable (mkTable None []
                 (map (fun sub => [(fst sub ++ (": " ++ py_text (snd sub)))%string]) inner)
                 None)]
  | val => [CText (fst kv); CText (py_text val)]
  end.

End PlainDict.

(** ** [tranform_network_params] and [transform_subnet_params]
       (lines 285-301 and 323-337) *)

(** [dict_from_nano] is imported from [communex.balance]: it makes a new
    dictionary from a dictionary and the names of the fields to convert. *)
Class BalanceLib : Type := {
  dict_from_nano : dict -> list string -> result dict
}.

Definition network_fields : list string :=
  ["min_weight_stake"; "general_subnet_application_cost";
   "subnet_registration_cost"; "proposal_cost";
   "max_proposal_reward_treasury_allocation"].

Definition subnet_fields : list string :=
  ["bonds_ma"; "min_burn"; "max_burn"; "min_weight_stake"; "proposal_cost";
   "max_proposal_reward_treasury_allocation"].

Definition allocation_key : string := "proposal_reward_treasury_allocation".

Section Params.
Context `{Numerics} `{BalanceLib}.

(** The governance dictionary after line 290. *)
Definition with_percent (allocation : value) (governance_config : dict) : dict :=
  Dict.set allocation_key (VStr (py_text allocation ++ "%")) governance_config.

(** [params] is the caller's object: lines 290 and 292 write to it.  Line
    290 writes into the governance dictionary itself, which is kept here as
    the tree that [params] holds: what the call does to [params] is modelled,
    what it does to another record that shares that dictionary is not.  A
    subscript on a value that is not a dictionary raises [TypeError]. *)
Definition tranform_network_params (params : ref) : M (dict) :=
  governance_config <- Obj.on params (Item.getitem "governance_config") ;;
  match governance_config with
  | VDict config =>
      allocation <- lift (Dict.getitem allocation_key config) ;;
      Obj.on params
        (Item.setitem "governance_config" (VDict (with_percent allocation config))) ;;;
      params_ <- Obj.on params (fun d => (Ok d, d)) ;;
      lift (dict_from_nano params_ network_fields)
  | _ => raise (TypeError "not subscriptable")
  end.

Definition transform_subnet_params (params : dict) : result dict :=
  let display_params := remove_none_values params in
  dict_from_nano display_params subnet_fields.

(** The caller's dictionary after one call. *)
Definition percent_marked (allocation : value) (config d : dict) : dict :=
  Dict.set "governance_config" (VDict (with_percent allocation config)) d.

End Params.

(** A stand-in for [dict_from_nano] that converts the named integer items
    of the top level with the sample [from_nano]. *)
Fixpoint whole_dict_from_nano (d : dict) (fields : list string) : result dict :=
  match d with
  | [] => Ok []
  | (k, v) :: rest =>
      match whole_dict_from_nano rest fields with
      | Err e => Err e
      | Ok rest' =>
          if existsb (String.eqb k) fields && negb (is_none v)
          then match Whole.from_nano v with
               | Ok v' => Ok ((k, v') :: rest')
               | Err e => Err e
               end
          else Ok ((k, v) :: rest')
      end
  end.

Definition whole_balance : BalanceLib := {|
  dict_from_nano := whole_dict_from_nano
|}.

Definition network_params_sample : dict :=
  [("max_allowed_modules", VInt 10000);
   ("subnet_registration_cost", VInt 2000000000);
   ("governance_config",
    VDict [("proposal_cost", VInt 10000000000);
           ("proposal_reward_treasury_allocation", VInt 2)])].

Definition subnet_params_sample : dict :=
  [("name", VStr "commune"); ("min_burn", VInt 4000000000);
   ("maximum_set_weight_calls_per_epoch", VNone);
   ("governance_config", VDict [("vote_mode", VStr "Authority")])].

Definition plain_sample : dict :=
  [("name", VStr "commune"); ("governance_config", VDict [("vote_mode", VStr "Authority")]);
   ("tempo", VInt 100)].

Definition three_by_two : list (string * list string) :=
  [("x", ["1"; "2"]); ("y", ["3"; "4"]); ("z", ["5"; "6"])].

(** ** Records that [transform_module_into] accepts *)

(** The record has what lines 195-211 read, and the conversions raise
    nothing on it. *)
Definition convertible_module `{Numerics} (to_exclude : list string)
    (last_block immunity_period tempo : Z) (d : dict) : Prop :=
  (exists regblock deadline flag,
     Dict.lookup "regblock" d = Some regblock
     /\ py_add regblock (VInt immunity_period) = Ok deadline
     /\ py_gt deadline (VInt last_block) = Ok flag)
  /\ (forall k, In k to_exclude -> k = "in_immunity" \/ Dict.lookup k d <> None)
  /\ (exists stake stake_units stake_rounded,
        Dict.lookup "stake" d = Some stake
        /\ from_nano stake = Ok stake_units
        /\ py_round stake_units 2 = Ok stake_rounded)
  /\ (exists emission emission_units emission_rounded,
        Dict.lookup "emission" d = Some emission
        /\ from_horus emission tempo = Ok emission_units
        /\ py_round emission_units 4 = Ok emission_rounded)
  /\ (exists raw,
        Dict.lookup "balance" d = Some raw
        /\ (is_none raw = false -> exists converted, from_nano raw = Ok converted)).

(** * Proofs *)

(** ** Facts about dictionaries *)

Module DictFacts.
Import Dict.

Lemma lookup_set_eq (k : string) (v : value) (d : dict) :
  lookup k (set k v d) = Some v.
Proof.
  induction d as [|[k' v'] rest IH]; simpl.
  - now rewrite String.eqb_refl.
  - destruct (String.eqb k k') eqn:E; simpl; rewrite E; auto.
Qed.

Lemma lookup_set_ne (k k' : string) (v : value) (d : dict) :
  k <> k' -> lookup k (set k' v d) = lookup k d.
Proof.
  intros Hne. induction d as [|[k0 v0] rest IH]; simpl.
  - destruct (String.eqb_spec k k'); congruence.
  - destruct (String.eqb_spec k' k0) as [->|Hk]; simpl.
    + destruct (String.eqb_spec k k0); congruence.
    + now rewrite IH.
Qed.

Lemma lookup_remove_eq (k : string) (d : dict) :
  lookup k (remove k d) = None.
Proof.
  induction d as [|[k' v'] rest IH]; simpl; auto.
  destruct (String.eqb k k') eqn:E; simpl; auto.
  now rewrite E.
Qed.

Lemma lookup_remove_ne (k k' : string) (d : dict) :
  k <> k' -> lookup k (remove k' d) = lookup k d.
Proof.
  intros Hne. induction d as [|[k0 v0] rest IH]; simpl; auto.
  destruct (String.eqb_spec k' k0) as [->|Hk]; simpl.
  - destruct (String.eqb_spec k k0); congruence.
  - now rewrite IH.
Qed.

Lemma lookup_none_iff (k : string) (d : dict) :
  lookup k d = None <-> ~ In k (keys d).
Proof.
  induction d as [|[k' v'] rest IH]; simpl.
  - tauto.
  - destruct (String.eqb_spec k k') as [->|Hk].
    + split; [discriminate | intros H; exfalso; apply H; now left].
    + rewrite IH. split; intros H; [intros [E|E]; congruence | tauto].
Qed.

Lemma set_fresh (k : string) (v : value) (d : dict) :
  lookup k d = None -> set k v d = d ++ [(k, v)].
Proof.
  induction d as [|[k' v'] rest IH]; simpl; auto.
  destruct (String.eqb k k'); [discriminate|].
  intros H. now rewrite IH.
Qed.

Lemma distinct_keys_NoDup (ks : list string) :
  distinct_keys ks = true <-> NoDup ks.
Proof.
  induction ks as [|k rest IH]; simpl.
  - split; [constructor | reflexivity].
  - rewrite andb_true_iff, negb_true_iff, IH. split.
    + intros [Hk Hr]. constructor; auto.
      intros Hin. assert (existsb (String.eqb k) rest = true); [|congruence].
      apply existsb_exists. exists k. split; auto. apply String.eqb_refl.
    + intros H. inversion H as [|? ? Hk Hr]; subst. split; auto.
      destruct (existsb (String.eqb k) rest) eqn:E; auto.
      apply existsb_exists in E. destruct E as [x [Hx Ex]].
      apply String.eqb_eq in Ex. subst. contradiction.
Qed.

End DictFacts.

(** ** [remove_none_values] *)

Section ValueInduction.
Variable P : value -> Prop.
Hypothesis HNone : P VNone.
Hypothesis HBool : forall b, P (VBool b).
Hypothesis HInt : forall n, P (VInt n).
Hypothesis HFloat : forall bits, P (VFloat bits).
Hypothesis HStr : forall s, P (VStr s).
Hypothesis HList : forall items, Forall P items -> P (VList items).
Hypothesis HDict : forall items, Forall (fun kv => P (snd kv)) items -> P (VDict items).

Fixpoint value_nested_ind (v : value) : P v :=
  match v with
  | VNone => HNone
  | VBool b => HBool b
  | VInt n => HInt n
  | VFloat bits => HFloat bits
  | VStr s => HStr s
  | VList items =>
      HList items
        ((fix all (l : list value) : Forall P l :=
            match l with
            | [] => Forall_nil P
            | x :: rest => Forall_cons x (value_nested_ind x) (all rest)
            end) items)
  | VDict items =>
      HDict items
        ((fix all (l : list (string * value)) : Forall (fun kv => P (snd kv)) l :=
            match l with
            | [] => Forall_nil _
            | kv :: rest =>
                Forall_cons (P := fun kv => P (snd kv)) kv
                  (value_nested_ind (snd kv)) (all rest)
            end) items)
  end.
End ValueInduction.

Module RemoveNone.
Import Dict DictFacts.

Lemma loop_cons (key : string) (val : value) (rest cleaned : dict) :
  remove_none_loop remove_none_values_of ((key, val) :: rest) cleaned =
  remove_none_loop remove_none_values_of rest
    (if is_none val then cleaned else set key (stored val) cleaned).
Proof. destruct val; reflexivity. Qed.

Lemma cleaned_entry_some (v : value) :
  cleaned_entry (Some v) = if is_none v then None else Some (stored v).
Proof. destruct v; reflexivity. Qed.

(** With distinct keys in [items], a key of the result comes from its
    entry in [items] when that entry is not [None], and from [cleaned]
    otherwise. *)
Lemma lookup_loop (k : string) (items : dict) :
  NoDup (keys items) ->
  forall cleaned,
    lookup k (remove_none_loop remove_none_values_of items cleaned) =
    match lookup k items with
    | Some v => if is_none v then lookup k cleaned else Some (stored v)
    | None => lookup k cleaned
    end.
Proof.
  induction items as [|[key val] rest IH]; intros Hnd cleaned.
  - reflexivity.
  - rewrite loop_cons. simpl in Hnd. inversion Hnd as [|? ? Hkey Hrest]; subst.
    rewrite (IH Hrest). simpl lookup at 2 4.
    destruct (String.eqb_spec k key) as [->|Hne].
    + apply lookup_none_iff in Hkey. rewrite Hkey.
      destruct (is_none val); auto. apply lookup_set_eq.
    + destruct (is_none val); auto.
      rewrite (lookup_set_ne k key _ _ Hne). reflexivity.
Qed.

End RemoveNone.

Module RemoveNoneClosure.
Import Dict DictFacts RemoveNone.

Lemma clean_dict_iff (d : dict) :
  clean_dict d <-> none_free (VDict d) = true /\ well_keyed (VDict d) = true.
Proof.
  unfold clean_dict, clean. simpl.
  rewrite andb_true_iff, distinct_keys_NoDup, !forallb_forall, Forall_forall.
  split.
  - intros [Hnd Hall]. repeat split; auto; intros kv Hin;
      destruct (Hall kv Hin) as [H1 [H2 H3]]; auto.
    now rewrite H1, H2.
  - intros [Hnf [Hnd Hwk]]. split; auto. intros kv Hin.
    specialize (Hnf kv Hin). specialize (Hwk kv Hin).
    apply andb_true_iff in Hnf. destruct Hnf as [H1 H2].
    apply negb_true_iff in H1. auto.
Qed.

Lemma in_keys_set (x k : string) (v : value) (d : dict) :
  In x (keys (set k v d)) <-> x = k \/ In x (keys d).
Proof.
  induction d as [|[k' v'] rest IH]; simpl.
  - intuition congruence.
  - destruct (String.eqb_spec k k') as [->|Hne]; simpl.
    + intuition congruence.
    + unfold keys in IH. rewrite IH. intuition congruence.
Qed.

Lemma clean_dict_set (k : string) (v : value) (d : dict) :
  clean v -> clean_dict d -> clean_dict (set k v d).
Proof.
  intros Hv [Hnd Hall]. split.
  - induction d as [|[k' v'] rest IH]; simpl.
    + constructor; [intros [] | constructor].
    + simpl in Hnd. inversion Hnd as [|? ? Hk Hr]; subst.
      inversion Hall; subst.
      destruct (String.eqb_spec k k') as [->|Hne]; simpl.
      * constructor; auto.
      * constructor; auto.
        fold (keys (set k v rest)). rewrite in_keys_set.
        intros [E|E]; [congruence | contradiction].
  - clear Hnd. induction Hall as [|[k' v'] rest Hx Hr IH]; simpl.
    + constructor; auto.
    + destruct (String.eqb k k'); constructor; auto.
Qed.

(** The loop only ever stores clean values under distinct keys. *)
Lemma loop_clean (v : value) :
  forall items, v = VDict items ->
  forall cleaned, clean_dict cleaned ->
    clean_dict (remove_none_loop remove_none_values_of items cleaned).
Proof.
  induction v as [| | | | |l Hl|items0 IHv] using value_nested_ind;
    intros items E; inversion E; subst items0; clear E.
  induction IHv as [|[key val] rest Hval Hrest IH]; intros cleaned Hc.
  - exact Hc.
  - rewrite loop_cons. apply IH. destruct (is_none val) eqn:En; auto.
    apply clean_dict_set; auto. simpl in Hval.
    destruct val; try discriminate; try (repeat split; reflexivity).
    unfold clean. simpl stored. split; [reflexivity|].
    apply clean_dict_iff. apply (Hval items eq_refl []).
    split; constructor.
Qed.

Lemma remove_none_values_clean (data : dict) :
  clean_dict (remove_none_values data).
Proof.
  apply (loop_clean (VDict data) data eq_refl). split; constructor.
Qed.

(** On a clean dictionary the loop copies the entries one by one. *)
Lemma loop_fixed (v : value) :
  forall items, v = VDict items -> clean_dict items ->
  forall cleaned, NoDup (keys (cleaned ++ items)) ->
    remove_none_loop remove_none_values_of items cleaned = cleaned ++ items.
Proof.
  induction v as [| | | | |l Hl|items0 IHv] using value_nested_ind;
    intros items E; inversion E; subst items0; clear E.
  induction IHv as [|[key val] rest Hval Hrest IH]; intros [Hnd Hall] cleaned Happ.
  - simpl. now rewrite app_nil_r.
  - rewrite loop_cons. inversion Hall as [|? ? Hc Hall']; subst.
    destruct Hc as [Hn [Hnf Hwk]]. simpl in Hn, Hnf, Hwk. rewrite Hn.
    assert (Hst : stored val = val).
    { destruct val; try reflexivity. simpl. f_equal.
      simpl in Hval. unfold remove_none_values.
      rewrite (Hval items eq_refl); auto.
      - apply clean_dict_iff. auto.
      - simpl. apply clean_dict_iff. auto. }
    rewrite Hst.
    assert (Hfresh : lookup key cleaned = None).
    { apply lookup_none_iff. intros Hin. unfold keys in Happ.
      rewrite map_app in Happ. simpl in Happ.
      apply NoDup_remove_2 in Happ. apply Happ.
      apply in_or_app. now left. }
    rewrite (set_fresh _ _ _ Hfresh).
    simpl in Hnd. inversion Hnd; subst.
    rewrite IH.
    + now rewrite <- app_assoc.
    + split; auto.
    + now rewrite <- app_assoc.
Qed.

Lemma remove_none_values_fixed (data : dict) :
  clean_dict data -> remove_none_values data = data.
Proof.
  intros Hc. unfold remove_none_values.
  rewrite (loop_fixed (VDict data) data eq_refl Hc []); auto.
  apply Hc.
Qed.

End RemoveNoneClosure.

(** C7: on a dictionary (its keys are distinct), [remove_none_values] keeps
    under a key what the input has there unless that is [None]: a key bound
    to [None] is gone, a nested dictionary is replaced by its own cleaning
    and stays even when that is empty, anything else is kept as it is, and no
    key is added.  [{a: 1, b: None, c: {d: None, e: 2}}] gives
    [{a: 1, c: {e: 2}}], and [{c: {d: None}}] gives [{c: {}}]. *)
Theorem remove_none_values_drops_null_keys (data : dict) (k : string) :
  distinct_keys (Dict.keys data) = true ->
  Dict.lookup k (remove_none_values data) = cleaned_entry (Dict.lookup k data)
  /\ remove_none_values nested_example =
       [("a", VInt 1); ("c", VDict [("e", VInt 2)])]
  /\ remove_none_values [("c", VDict [("d", VNone)])] = [("c", VDict [])].
Proof.
  intros Hd. split; [|split; reflexivity].
  apply DictFacts.distinct_keys_NoDup in Hd.
  unfold remove_none_values. rewrite (RemoveNone.lookup_loop k data Hd []).
  destruct (Dict.lookup k data) as [v|]; [|reflexivity].
  rewrite RemoveNone.cleaned_entry_some. now destruct (is_none v).
Qed.

Lemma remove_none_values_drops_null_keys_witness :
  Dict.lookup "b" (remove_none_values nested_example) = None
  /\ Dict.lookup "c" (remove_none_values nested_example) =
       Some (VDict [("e", VInt 2)]).
Proof.
  split.
  - exact (proj1 (remove_none_values_drops_null_keys nested_example "b" eq_refl)).
  - exact (proj1 (remove_none_values_drops_null_keys nested_example "c" eq_refl)).
Defined.

Module RemoveNoneLists.
Import Dict RemoveNone.

Lemma list_free_set (k : string) (v : value) (d : dict) :
  list_free v = true -> list_free (VDict d) = true ->
  list_free (VDict (set k v d)) = true.
Proof.
  intros Hv. induction d as [|[k' v'] rest IH]; simpl.
  - intros _. now rewrite Hv.
  - intros Hd. apply andb_true_iff in Hd. destruct Hd as [Hv' Hrest].
    destruct (String.eqb k k'); simpl.
    + now rewrite Hv, Hrest.
    + rewrite Hv'. now apply IH.
Qed.

(** The cleaning brings no list in. *)
Lemma loop_list_free (v : value) :
  forall items, v = VDict items -> list_free v = true ->
  forall cleaned, list_free (VDict cleaned) = true ->
    list_free (VDict (remove_none_loop remove_none_values_of items cleaned)) = true.
Proof.
  induction v as [| | | | |l Hl|items0 IHv] using value_nested_ind;
    intros items E; inversion E; subst items0; clear E.
  induction IHv as [|[key val] rest Hval Hrest IH]; intros Hfree cleaned Hc.
  - exact Hc.
  - rewrite loop_cons. simpl in Hfree. apply andb_true_iff in Hfree.
    destruct Hfree as [Hv Hfree]. apply IH; [exact Hfree|].
    destruct (is_none val); [exact Hc|].
    apply list_free_set; [|exact Hc].
    destruct val; try reflexivity; try discriminate.
    simpl stored. simpl in Hval.
    apply (Hval items eq_refl Hv [] eq_refl).
Qed.

(** Without lists, a [None] can only sit under a key. *)
Lemma null_free_without_lists (v : value) :
  list_free v = true -> none_free v = true -> is_none v = false ->
  null_free v = true.
Proof.
  induction v as [| | | | |l Hl|items IHv] using value_nested_ind;
    intros Hl' Hn Hv; try reflexivity; try discriminate.
  clear Hv. simpl in *.
  induction IHv as [|[key val] rest Hval Hrest IH]; [reflexivity|].
  simpl in *. apply andb_true_iff in Hl'. destruct Hl' as [Hl1 Hl2].
  apply andb_true_iff in Hn. destruct Hn as [Hn1 Hn2].
  apply andb_true_iff in Hn1. destruct Hn1 as [Hnone Hnf].
  apply negb_true_iff in Hnone.
  rewrite (Hval Hl1 Hnf Hnone). simpl. now apply IH.
Qed.

End RemoveNoneLists.

(** C9 (as the code has it): [remove_none_values] is idempotent, and in its
    result no key is bound to [None], at any depth of nested dictionaries.
    Lists are not visited: a [None] in a list stays.  When the input holds no
    list, the result holds no [None] at all. *)
Theorem remove_none_values_idempotent (data : dict) :
  remove_none_values (remove_none_values data) = remove_none_values data
  /\ none_free (VDict (remove_none_values data)) = true
  /\ (list_free (VDict data) = true ->
      null_free (VDict (remove_none_values data)) = true).
Proof.
  pose proof (RemoveNoneClosure.remove_none_values_clean data) as Hc.
  split; [|split].
  - now apply RemoveNoneClosure.remove_none_values_fixed.
  - now apply RemoveNoneClosure.clean_dict_iff.
  - intros Hl. apply RemoveNoneLists.null_free_without_lists.
    + apply (RemoveNoneLists.loop_list_free (VDict data) data eq_refl Hl []).
      reflexivity.
    + now apply RemoveNoneClosure.clean_dict_iff.
    + reflexivity.
Qed.

Lemma remove_none_values_idempotent_witness :
  null_free (VDict (remove_none_values nested_example)) = true.
Proof.
  exact (proj2 (proj2 (remove_none_values_idempotent nested_example)) eq_refl).
Defined.

(** C9, the claim as written fails: the list under "h" holds [None] and a
    dictionary with a key bound to [None]; the call drops the key "k" and
    keeps the list as it is, so its result still holds [None]. *)
Lemma remove_none_values_keeps_none_in_lists :
  remove_none_values listed_example
  = [("h", VList [VNone; VDict [("x", VNone)]])]
  /\ null_free (VDict (remove_none_values listed_example)) = false.
Proof. split; reflexivity. Qed.

(** ** [print_table_standardize] *)

Section ZipFacts.
Context {A : Type}.

Lemma nth_error_nil_none {B : Type} (i : nat) : nth_error (@nil B) i = None.
Proof. now destruct i. Qed.

Lemma heads_cells_at (rows : list (list A)) : heads rows = cells_at O rows.
Proof.
  induction rows as [|col rest IH]; simpl; auto.
  destruct col; simpl; auto. now rewrite IH.
Qed.

Lemma cells_at_tl (i : nat) (rows : list (list A)) :
  cells_at (S i) rows = cells_at i (map (@tl A) rows).
Proof.
  induction rows as [|col rest IH]; simpl; auto.
  rewrite IH. destruct col; simpl; [rewrite nth_error_nil_none|]; reflexivity.
Qed.

Lemma cells_at_exhausted (i : nat) (rows : list (list A)) :
  cells_at O rows = None -> cells_at i rows = None.
Proof.
  induction rows as [|col rest IH]; simpl; [discriminate|].
  destruct col as [|x col]; simpl.
  - now rewrite nth_error_nil_none.
  - destruct (cells_at O rest); [discriminate|].
    intros _. rewrite IH; auto. now destruct (nth_error (x :: col) i).
Qed.

Lemma nth_error_zip_from (first : list A) :
  forall others i,
    nth_error (zip_from first others) i = cells_at i (first :: others).
Proof.
  induction first as [|x first' IH]; intros others i.
  - simpl. rewrite !nth_error_nil_none. reflexivity.
  - simpl zip_from. destruct (heads others) as [r|] eqn:Hh.
    + rewrite heads_cells_at in Hh. destruct i as [|j].
      * simpl. now rewrite Hh.
      * simpl nth_error at 1. rewrite IH.
        change (cells_at (S j) ((x :: first') :: others)) with
          (match nth_error first' j, cells_at (S j) others with
           | Some y, Some r' => Some (y :: r')
           | _, _ => None
           end).
        now rewrite cells_at_tl.
    + rewrite heads_cells_at in Hh. rewrite nth_error_nil_none.
      simpl. rewrite (cells_at_exhausted i others Hh).
      now destruct (nth_error (x :: first') i).
Qed.

Lemma min_fold_zero (rows : list (list A)) :
  fold_left (fun m col => Nat.min m (List.length col)) rows O = O.
Proof. induction rows; simpl; auto. Qed.

Lemma min_fold_heads_some (rows : list (list A)) :
  forall r n, heads rows = Some r ->
    fold_left (fun m col => Nat.min m (List.length col)) rows (S n) =
    S (fold_left (fun m col => Nat.min m (List.length col)) (map (@tl A) rows) n).
Proof.
  induction rows as [|col rest IH]; intros r n Hh; simpl; auto.
  simpl in Hh. destruct col as [|x col]; [discriminate|].
  destruct (heads rest) as [r'|] eqn:Hr; [|discriminate].
  simpl. now apply (IH r').
Qed.

Lemma min_fold_heads_none (rows : list (list A)) :
  forall n, heads rows = None ->
    fold_left (fun m col => Nat.min m (List.length col)) rows n = O.
Proof.
  induction rows as [|col rest IH]; intros n Hh; simpl in *; [discriminate|].
  destruct col as [|x col].
  - simpl. rewrite Nat.min_0_r. apply min_fold_zero.
  - destruct (heads rest) eqn:Hr; [discriminate|]. now apply IH.
Qed.

Lemma length_zip_from (first : list A) :
  forall others,
    List.length (zip_from first others) = shortest (first :: others).
Proof.
  unfold shortest.
  induction first as [|x first' IH]; intros others; simpl.
  - now rewrite min_fold_zero.
  - destruct (heads others) as [r|] eqn:Hh; simpl.
    + rewrite IH. symmetry. now apply (min_fold_heads_some others r).
    + symmetry. now apply min_fold_heads_none.
Qed.

End ZipFacts.

Lemma add_rows_eq {A : Type} (renderable : A -> bool) (zipped : list (list A)) :
  forall rows,
    add_rows renderable zipped rows =
    if forallb (forallb renderable) zipped
    then Ok (rows ++ zipped) else Err not_renderable.
Proof.
  induction zipped as [|row rest IH]; intros rows; simpl.
  - now rewrite app_nil_r.
  - destruct (forallb renderable row); simpl; [|reflexivity].
    rewrite IH. destruct (forallb (forallb renderable) rest); [|reflexivity].
    now rewrite <- app_assoc.
Qed.

(** C6 (as the code has it): [print_table_standardize] makes no length
    check and never raises for unequal lengths: the sequences are cut to the
    shortest.  When the console library renders every cell of the rows so
    formed, the table has one column per key and as many rows as the shortest
    sequence has items, and row [i] holds item [i] of every sequence, in the
    order of the keys.  When it refuses one of those cells, [add_row] raises
    [NotRenderableError]. *)
Theorem print_table_standardize_truncates (A : Type) (renderable : A -> bool)
    (result : list (string * list A)) :
  (forallb (forallb renderable) (zip_star (map snd result)) = true ->
   exists table,
     print_table_standardize renderable result = Ok table
     /\ tbl_columns table = map fst result
     /\ List.length (tbl_rows table) = shortest (map snd result)
     /\ forall i,
          nth_error (tbl_rows table) i =
          match result with
          | [] => None
          | _ :: _ => cells_at i (map snd result)
          end)
  /\ (forallb (forallb renderable) (zip_star (map snd result)) = false ->
      print_table_standardize renderable result = Err not_renderable).
Proof.
  unfold print_table_standardize. rewrite add_rows_eq. split; intros ->.
  - eexists. split; [reflexivity|]. simpl. split; [reflexivity|].
    destruct result as [|[key first] others]; simpl map; simpl zip_star.
    + split; [reflexivity | intros i; now destruct i].
    + split; [apply length_zip_from | intros i; apply nth_error_zip_from].
  - reflexivity.
Qed.

Lemma print_table_standardize_truncates_witness :
  (exists table,
     print_table_standardize any_text uneven_columns = Ok table
     /\ tbl_columns table = ["x"; "y"]
     /\ List.length (tbl_rows table) = 2%nat
     /\ forall i, nth_error (tbl_rows table) i
                  = cells_at i [["1"; "2"]; ["3"; "4"; "5"]])
  /\ print_table_standardize renders uneven_integers = Err not_renderable.
Proof.
  split.
  - exact (proj1 (print_table_standardize_truncates string any_text uneven_columns)
             eq_refl).
  - exact (proj2 (print_table_standardize_truncates value renders uneven_integers)
             eq_refl).
Defined.

(** C6, the claim as written fails: the sequences of [x] and [y] have 2
    and 3 items, given as text, and the call returns a table with the two
    rows [["1", "3"]] and [["2", "4"]]. *)
Lemma print_table_standardize_no_shape_mismatch :
  map (fun kv => List.length (snd kv)) uneven_columns = [2; 3]%nat
  /\ print_table_standardize any_text uneven_columns =
       Ok (mkTable None ["x"; "y"] [["1"; "3"]; ["2"; "4"]] None).
Proof. split; reflexivity. Qed.

(** ** [com_client] *)

Section ComClientFacts.
Context `{NodeService}.

Lemma attempts_emit_status (msg : string) (s : Session) :
  attempts (emit (StatusUpdate msg) s) = attempts s.
Proof.
  unfold attempts, emit. simpl. rewrite filter_app, length_app. simpl. lia.
Qed.

Lemma attempts_emit_construct (url : string) (s : Session) :
  attempts (emit (Construct url) s) = S (attempts s).
Proof.
  unfold attempts, emit. simpl. rewrite filter_app, length_app. simpl. lia.
Qed.

(** When every attempt fails the loop runs to its end: one constructor
    call per value of [current], and [_com_client] is left as it was. *)
Lemma connect_loop_all_fail (node_url : string) (currents : list nat) :
  always_fails ->
  forall s, exists s',
    connect_loop node_url currents s = (None, s')
    /\ _com_client (self s') = _com_client (self s)
    /\ attempts s' = (attempts s + List.length currents)%nat.
Proof.
  intros Hfail. induction currents as [|current rest IH]; intros s.
  - exists s. simpl. repeat split. lia.
  - cbn [connect_loop].
    match goal with |- context [CommuneClient ?u ?n ?b ?w] =>
      destruct (Hfail u n b w) as [e [w' [Hc He]]] end.
    rewrite Hc, He.
    match goal with |- context [connect_loop _ _ ?s1] =>
      destruct (IH s1) as [s' [Hl [Hk Ha]]] end.
    exists s'. split; [exact Hl|]. split.
    + rewrite Hk. reflexivity.
    + rewrite Ha, attempts_emit_status.
      match goal with |- (attempts ?s2 + _)%nat = _ =>
        change (attempts s2) with
          (attempts (emit (Construct node_url)
                       (emit (StatusUpdate (connecting node_url)) s))) end.
      rewrite attempts_emit_construct, attempts_emit_status. simpl. lia.
Qed.

Lemma com_client_all_fail (s : Session) :
  _com_client (self s) = None -> always_fails ->
  exists s',
    com_client s = (Err (ConnectionError "Could not connect to any node"), s')
    /\ _com_client (self s') = None
    /\ attempts s' = (attempts s + 5)%nat.
Proof.
  intros Hnone Hfail. unfold com_client. rewrite Hnone.
  destruct (get_node_url (use_testnet (self s)) (world s)) as [node_url w].
  destruct (connect_loop_all_fail node_url (seq 1 5) Hfail
              (mkSession (self s) w (events s))) as [s' [Hl [Hk Ha]]].
  rewrite Hl. simpl in Hk. rewrite Hnone in Hk. rewrite Hk.
  exists s'. repeat split; auto.
Qed.

End ComClientFacts.


Lemma unreachable_always_fails : @always_fails unreachable_service.
Proof.
  intros url n b w. exists (OtherExc "ConnectionRefusedError"), (S w).
  split; reflexivity.
Defined.



Section ComClientExhausted.
Context `{NodeService}.

(** The loop that ends without a client and without an exception has
    called the constructor once per value of [current], each call on the world
    the call before it left, and every call has raised an [Exception]. *)
Lemma connect_loop_exhausted (node_url : string) (currents : list nat) :
  forall s s',
    connect_loop node_url currents s = (None, s') ->
    _com_client (self s) = None -> _com_client (self s') = None ->
    world s' = world_after_calls node_url (List.length currents) (world s)
    /\ events s' = events s ++ retry_events node_url currents
    /\ forall i, (i < List.length currents)%nat -> call_fails node_url (world s) i.
Proof.
  induction currents as [|current rest IH]; intros s s' E Hs Hs'.
  - inversion E; subst. simpl. rewrite app_nil_r.
    repeat split. intros i Hi. inversion Hi.
  - cbn [connect_loop] in E.
    assert (Hw : world (emit (Construct node_url)
                          (emit (StatusUpdate (connecting node_url)) s)) = world s)
      by reflexivity.
    rewrite Hw in E.
    destruct (CommuneClient node_url 1 false (world s)) as [[client|e] w1] eqn:Hc.
    + inversion E; subst s'. simpl in Hs'. discriminate.
    + destruct (is_Exception e) eqn:He; [|discriminate].
      apply IH in E; [|exact Hs|exact Hs'].
      destruct E as [Hworld [Hevents Hcalls]].
      cbn [world emit] in Hworld. cbn [events emit] in Hevents.
      split; [|split].
      * cbn [List.length world_after_calls]. now rewrite Hc.
      * rewrite Hevents. cbn [retry_events flat_map].
        fold (retry_events node_url rest). rewrite <- !app_assoc. reflexivity.
      * intros [|i] Hi.
        { exists e. unfold world_after_calls. rewrite Hc. auto. }
        { unfold call_fails. cbn [world_after_calls]. rewrite Hc.
          apply Hcalls. simpl in Hi. cbn [world emit]. lia. }
Qed.

Lemma connect_loop_propagates (node_url : string) (currents : list nat) :
  forall s s' e,
    connect_loop node_url currents s = (Some e, s') -> is_Exception e = false.
Proof.
  induction currents as [|current rest IH]; intros s s' e E.
  - inversion E.
  - cbn [connect_loop] in E.
    match type of E with context [CommuneClient ?u ?n ?b ?w] =>
      destruct (CommuneClient u n b w) as [[client|e0] w1] end.
    + inversion E.
    + destruct (is_Exception e0) eqn:He.
      * now apply IH in E.
      * inversion E; subst. exact He.
Qed.

Lemma retry_events_attempts (node_url : string) (currents : list nat) :
  List.length (filter is_construct (retry_events node_url currents))
  = List.length currents.
Proof.
  induction currents as [|current rest IH]; simpl; [reflexivity|].
  now rewrite IH.
Qed.

(** An [Exception] out of [com_client]: the cache was unset, the five calls
    were made one after the other and all raised, and line 85 raised. *)
Lemma com_client_exhausted (s s' : Session) (e : exn) :
  com_client s = (Err e, s') -> is_Exception e = true ->
  e = ConnectionError "Could not connect to any node"
  /\ _com_client (self s) = None
  /\ _com_client (self s') = None
  /\ world s'
     = world_after_calls (target_url s) 5
         (snd (get_node_url (use_testnet (self s)) (world s)))
  /\ events s' = events s ++ retry_events (target_url s) (seq 1 5)
  /\ forall i, (i < 5)%nat ->
       call_fails (target_url s)
         (snd (get_node_url (use_testnet (self s)) (world s))) i.
Proof.
  unfold com_client, target_url. intros E He.
  destruct (_com_client (self s)) as [c|] eqn:Hc; [discriminate|].
  destruct (get_node_url (use_testnet (self s)) (world s)) as [node_url w].
  cbn [fst snd].
  destruct (connect_loop node_url (seq 1 5) (mkSession (self s) w (events s)))
    as [[e0|] s0] eqn:El.
  - inversion E; subst e0 s0. apply connect_loop_propagates in El. congruence.
  - destruct (_com_client (self s0)) as [c|] eqn:Hc0; inversion E; subst e s0.
    destruct (connect_loop_exhausted _ _ _ _ El Hc Hc0) as [Hw [Hev Hcalls]].
    repeat split; auto.
Qed.

End ComClientExhausted.

(** C2: when the cached client is unset and the constructor fails on every
    call, [com_client] calls the constructor exactly five times, one call
    after the other on the resolved URL, raises [ConnectionError], and leaves
    [_com_client] unset.  The world it leaves is the world after those five
    calls, and what it has done is, five times over, a status text, a
    constructor call and the status text of the retry. *)
Theorem com_client_five_attempts `{NodeService} (s : Session) :
  _com_client (self s) = None -> always_fails ->
  exists msg s',
    com_client s = (Err (ConnectionError msg), s')
    /\ attempts s' = (attempts s + 5)%nat
    /\ _com_client (self s') = None
    /\ world s'
       = world_after_calls (target_url s) 5
           (snd (get_node_url (use_testnet (self s)) (world s)))
    /\ events s' = events s ++ retry_events (target_url s) (seq 1 5).
Proof.
  intros Hnone Hfail.
  destruct (com_client_all_fail s Hnone Hfail) as [s' [Hc [Hk Ha]]].
  destruct (com_client_exhausted s s' _ Hc eq_refl) as [_ [_ [_ [Hw [Hev _]]]]].
  exists "Could not connect to any node", s'. auto.
Qed.

Lemma com_client_five_attempts_witness :
  exists msg s',
    @com_client unreachable_service fresh_session = (Err (ConnectionError msg), s')
    /\ @attempts unreachable_service s' = 5%nat
    /\ @_com_client unreachable_service (@self unreachable_service s') = None
    /\ @world unreachable_service s' = 5%nat
    /\ @events unreachable_service s'
       = retry_events "wss://mainnet.example:443" [1; 2; 3; 4; 5]%nat.
Proof.
  exact (@com_client_five_attempts unreachable_service fresh_session
           eq_refl unreachable_always_fails).
Defined.

(** ** The store monad and the heap *)

Section StFacts.
Context {S A B : Type}.

Lemma bind_ok (m : St S A) (f : A -> St S B) (s s' : S) (b : B) :
  bind m f s = (Ok b, s') ->
  exists a s1, m s = (Ok a, s1) /\ f a s1 = (Ok b, s').
Proof.
  unfold bind. destruct (m s) as [[a|e] s1]; intros E.
  - now exists a, s1.
  - discriminate.
Qed.

Lemma bind_run (m : St S A) (f : A -> St S B) (s s1 : S) (a : A) :
  m s = (Ok a, s1) -> bind m f s = f a s1.
Proof. unfold bind. now intros ->. Qed.

End StFacts.

Lemma lift_ok {S A : Type} (r : result A) (s s' : S) (a : A) :
  lift r s = (Ok a, s') -> r = Ok a /\ s' = s.
Proof. unfold lift. intros E. inversion E. auto. Qed.

Ltac same_object d H1 H2 :=
  let X := fresh "X" in
  pose proof (eq_trans (eq_sym H1) H2) as X; inversion X; subst d; clear X.

Ltac st_inv H :=
  let a := fresh "a" in
  let s := fresh "d" in
  let H1 := fresh "Hrun" in
  apply bind_ok in H; destruct H as [a [s [H1 H]]]; cbv beta in H.

Module HeapFacts.

Lemma nth_error_last {A : Type} (h : list A) (d : A) :
  nth_error (h ++ [d]) (List.length h) = Some d.
Proof. rewrite nth_error_app2, Nat.sub_diag; auto. Qed.

Lemma list_update_last {A : Type} (h : list A) (d d' : A) :
  list_update (List.length h) d' (h ++ [d]) = h ++ [d'].
Proof. induction h as [|x h IH]; simpl; [reflexivity | now rewrite IH]. Qed.

Lemma list_update_same {A : Type} (h : list A) :
  forall r d, nth_error h r = Some d -> list_update r d h = h.
Proof.
  induction h as [|x h IH]; intros [|r] d E; simpl in *; auto.
  - now inversion E.
  - now rewrite (IH r d E).
Qed.

Lemma on_last {A : Type} (h : heap) (d : dict) (body : St dict A) :
  Obj.on (List.length h) body (h ++ [d]) =
  (fst (body d), h ++ [snd (body d)]).
Proof.
  unfold Obj.on. rewrite nth_error_last.
  destruct (body d) as [res d']. simpl. now rewrite list_update_last.
Qed.

(** A statement that leaves the object as it is leaves the heap as it is. *)
Lemma on_read {A : Type} (h : heap) (r : ref) (d : dict) (f : dict -> result A) :
  nth_error h r = Some d ->
  Obj.on r (fun d => (f d, d)) h = (f d, h).
Proof.
  intros E. unfold Obj.on. rewrite E. now rewrite (list_update_same h r d E).
Qed.

Lemma on_dangling {A : Type} (h : heap) (r : ref) (body : St dict A) :
  nth_error h r = None -> Obj.on r body h = (Err Obj.dangling, h).
Proof. intros E. unfold Obj.on. now rewrite E. Qed.

End HeapFacts.

(** ** [transform_module_into] *)

Section TransformFacts.
Context `{Numerics}.
Variables (to_exclude : list string) (last_block immunity_period tempo : Z).

Local Abbreviation normalize :=
  (normalize_module to_exclude last_block immunity_period tempo).
Local Abbreviation transform_one :=
  (transform_module to_exclude last_block immunity_period tempo).
Local Abbreviation loop :=
  (transform_loop to_exclude last_block immunity_period tempo).
Local Abbreviation display_of :=
  (display_record_of to_exclude last_block immunity_period tempo).

(** One turn of the loop puts one new object at the end of the heap and
    runs the statements of lines 195-211 on it. *)
Lemma transform_module_eq (mod_ : ref) (h : heap) :
  transform_one mod_ h =
  match nth_error h mod_ with
  | None => (Err Obj.dangling, h)
  | Some d =>
      (match fst (normalize d) with
       | Ok _ => Ok (List.length h)
       | Err e => Err e
       end, h ++ [snd (normalize d)])
  end.
Proof.
  unfold transform_module, bind, Obj.copy.
  destruct (nth_error h mod_) as [d|]; [|reflexivity].
  rewrite HeapFacts.on_last.
  destruct (fst (normalize d)); reflexivity.
Qed.

Lemma transform_loop_cons (mod_ : ref) (rest acc : list ref) :
  loop (mod_ :: rest) acc =
  bind (transform_one mod_) (fun module => loop rest (acc ++ [module])).
Proof. reflexivity. Qed.

(** The heap only grows, whether the call returns or raises. *)
Lemma transform_loop_grows (mods : list ref) :
  forall acc h, exists ds, snd (loop mods acc h) = h ++ ds.
Proof.
  induction mods as [|mod_ rest IH]; intros acc h.
  - exists []. simpl. now rewrite app_nil_r.
  - rewrite transform_loop_cons. unfold bind. rewrite transform_module_eq.
    destruct (nth_error h mod_) as [d|].
    + destruct (fst (normalize d)); cbv beta iota.
      * destruct (IH (acc ++ [List.length h]) (h ++ [snd (normalize d)])) as [ds E].
        exists (snd (normalize d) :: ds). rewrite <- app_assoc in E. exact E.
      * now exists [snd (normalize d)].
    + exists []. simpl. now rewrite app_nil_r.
Qed.

Lemma transform_loop_ok (mods : list ref) :
  forall acc h outs h',
    loop mods acc h = (Ok outs, h') ->
    exists news, outs = acc ++ news /\ Forall2 (display_of h') mods news.
Proof.
  induction mods as [|mod_ rest IH]; intros acc h outs h' E.
  - simpl in E. inversion E; subst. exists []. split; [now rewrite app_nil_r | constructor].
  - rewrite transform_loop_cons in E.
    st_inv E. rewrite transform_module_eq in Hrun.
    destruct (nth_error h mod_) as [d0|] eqn:Hd; [|discriminate].
    destruct (normalize d0) as [res d1] eqn:Hn. simpl in Hrun.
    destruct res as [[]|e]; [|discriminate].
    inversion Hrun; subst a d. clear Hrun.
    destruct (transform_loop_grows rest (acc ++ [List.length h]) (h ++ [d1])) as [ds Hg].
    assert (Hh : h' = (h ++ [d1]) ++ ds).
    { change h' with (snd (Ok outs, h')). rewrite <- E. exact Hg. }
    clear Hg. subst h'.
    destruct (IH _ _ _ _ E) as [news [Ho Hf]].
    exists (List.length h :: news). split.
    + rewrite Ho. now rewrite <- app_assoc.
    + constructor; auto. exists d0, d1. repeat split; auto.
      * rewrite <- app_assoc. rewrite nth_error_app1; auto.
        apply nth_error_Some. congruence.
      * rewrite <- app_assoc. simpl. rewrite nth_error_app2, Nat.sub_diag; auto.
Qed.

End TransformFacts.

Section NormalizeFacts.
Context `{Numerics}.
Import Dict DictFacts.

Lemma delitem_ok (k : string) (d d' : dict) :
  Item.delitem k d = (Ok tt, d') -> lookup k d <> None /\ d' = remove k d.
Proof.
  unfold Item.delitem, delitem, mem.
  destruct (lookup k d); intros E; inversion E; split; congruence.
Qed.

Lemma delete_keys_ok (to_exclude : list string) :
  forall d d', delete_keys to_exclude d = (Ok tt, d') ->
    (forall k, ~ In k to_exclude -> lookup k d' = lookup k d)
    /\ (forall k, In k to_exclude -> lookup k d' = None).
Proof.
  induction to_exclude as [|key rest IH]; intros d d' E.
  - inversion E; subst. split; [reflexivity | intros k []].
  - simpl in E. st_inv E. destruct a. apply delitem_ok in Hrun.
    destruct Hrun as [_ ->]. destruct (IH _ _ E) as [Hout Hin]. split.
    + intros k Hk. rewrite Hout; [|intros Hr; apply Hk; now right].
      apply lookup_remove_ne. intros ->. apply Hk. now left.
    + intros k [->|Hk]; [|now apply Hin].
      destruct (in_dec string_dec k rest) as [Hr|Hr]; [now apply Hin|].
      rewrite (Hout k Hr). apply lookup_remove_eq.
Qed.

Lemma getitem_ok (k : string) (d d' : dict) (v : value) :
  Item.getitem k d = (Ok v, d') -> lookup k d = Some v /\ d' = d.
Proof.
  unfold Item.getitem, getitem. destruct (lookup k d); intros E; inversion E; auto.
Qed.

Lemma setitem_ok (k : string) (v : value) (d d' : dict) (u : unit) :
  Item.setitem k v d = (Ok u, d') -> d' = set k v d.
Proof. unfold Item.setitem. intros E. now inversion E. Qed.

(** What lines 207-211 do with the balance. *)
Lemma convert_balance_ok (d d' : dict) :
  convert_balance d = (Ok tt, d') ->
  exists raw,
    lookup "balance" d = Some raw
    /\ (forall k, k <> "balance" -> lookup k d' = lookup k d)
    /\ (if is_none raw
        then lookup "balance" d' = None
        else exists converted,
               from_nano raw = Ok converted
               /\ lookup "balance" d' = Some converted).
Proof.
  unfold convert_balance. intros E. st_inv E.
  unfold Item.get in Hrun. inversion Hrun; subst a d0. clear Hrun.
  unfold get in E.
  destruct (lookup "balance" d) as [raw|] eqn:Hb.
  - exists raw. split; [reflexivity|]. destruct (is_none raw) eqn:Hn.
    + apply delitem_ok in E. destruct E as [_ ->]. split.
      * intros k Hk. now apply lookup_remove_ne.
      * apply lookup_remove_eq.
    + st_inv E. apply getitem_ok in Hrun. destruct Hrun as [Hraw ->].
      st_inv E. apply lift_ok in Hrun. destruct Hrun as [Hconv ->].
      apply setitem_ok in E. subst d'.
      assert (a = raw) by congruence. subst a. split.
      * intros k Hk. now apply lookup_set_ne.
      * exists a0. split; [exact Hconv | apply lookup_set_eq].
  - simpl in E. apply delitem_ok in E. destruct E as [Habs _]. congruence.
Qed.

Variables (to_exclude : list string) (last_block immunity_period tempo : Z).

Local Abbreviation normalize :=
  (normalize_module to_exclude last_block immunity_period tempo).

(** The display record that lines 195-211 make of a record, when they
    raise nothing. *)
Lemma normalize_module_ok (d d' : dict) :
  normalize d = (Ok tt, d') ->
  exists regblock deadline flag raw,
    lookup "regblock" d = Some regblock
    /\ py_add regblock (VInt immunity_period) = Ok deadline
    /\ py_gt deadline (VInt last_block) = Ok flag
    /\ (~ In "in_immunity" to_exclude -> lookup "in_immunity" d' = Some flag)
    /\ ~ In "balance" to_exclude
    /\ lookup "balance" d = Some raw
    /\ (if is_none raw
        then lookup "balance" d' = None
        else exists converted,
               from_nano raw = Ok converted
               /\ lookup "balance" d' = Some converted).
Proof.
  unfold normalize_module. intros E.
  st_inv E. apply getitem_ok in Hrun. destruct Hrun as [Hreg ->].
  st_inv E. apply lift_ok in Hrun. destruct Hrun as [Hadd ->].
  st_inv E. apply lift_ok in Hrun. destruct Hrun as [Hgt ->].
  st_inv E. apply setitem_ok in Hrun. subst d0.
  st_inv E. destruct a3. apply delete_keys_ok in Hrun. destruct Hrun as [Hkeep Hgone].
  st_inv E. apply getitem_ok in Hrun. destruct Hrun as [_ ->].
  st_inv E. apply lift_ok in Hrun. destruct Hrun as [_ ->].
  st_inv E. apply lift_ok in Hrun. destruct Hrun as [_ ->].
  st_inv E. apply setitem_ok in Hrun. subst d1.
  st_inv E. apply getitem_ok in Hrun. destruct Hrun as [_ ->].
  st_inv E. apply lift_ok in Hrun. destruct Hrun as [_ ->].
  st_inv E. apply lift_ok in Hrun. destruct Hrun as [_ ->].
  st_inv E. apply setitem_ok in Hrun. subst d1.
  apply convert_balance_ok in E.
  destruct E as [raw [Hraw [Hother Hbal]]].
  rewrite !lookup_set_ne in Hraw by discriminate.
  assert (Hex : ~ In "balance" to_exclude).
  { intros Hin. rewrite (Hgone _ Hin) in Hraw. discriminate. }
  rewrite (Hkeep _ Hex) in Hraw.
  rewrite lookup_set_ne in Hraw by discriminate.
  exists a, a0, a1, raw. repeat split; auto.
  intros Himm. rewrite Hother by discriminate.
  rewrite !lookup_set_ne by discriminate.
  rewrite (Hkeep _ Himm). apply lookup_set_eq.
Qed.

End NormalizeFacts.

Section TransformClaims.
Context `{Numerics}.
Variables (to_exclude : list string) (last_block immunity_period tempo : Z).

Local Abbreviation normalize :=
  (normalize_module to_exclude last_block immunity_period tempo).
Local Abbreviation transform h modules :=
  (transform_module_into to_exclude last_block immunity_period modules tempo h).
Local Abbreviation normalizable_in :=
  (normalizable to_exclude last_block immunity_period tempo).

Lemma transform_grows (modules : list ref) (h : heap) :
  exists ds, snd (transform h modules) = h ++ ds.
Proof. apply transform_loop_grows. Qed.

Lemma transform_keeps (modules : list ref) (h : heap) (r : ref) (d : dict) :
  nth_error h r = Some d -> nth_error (snd (transform h modules)) r = Some d.
Proof.
  intros E. destruct (transform_grows modules h) as [ds ->].
  rewrite nth_error_app1; auto. apply nth_error_Some. congruence.
Qed.

(** A returned batch, read against the heap before the call. *)
Lemma transform_ok (modules outs : list ref) (h h' : heap) :
  transform h modules = (Ok outs, h') ->
  Forall2 (fun r o => forall d, nth_error h r = Some d ->
             exists d', nth_error h' o = Some d' /\ normalize d = (Ok tt, d'))
    modules outs.
Proof.
  intros E. pose proof (transform_keeps modules h) as Hkeep.
  unfold transform_module_into in *. rewrite E in Hkeep. simpl in Hkeep.
  apply transform_loop_ok in E. destruct E as [news [-> Hf]]. simpl.
  eapply Forall2_impl; [|exact Hf].
  intros r o [d0 [d' [Hr [Ho Hn]]]] d Hd.
  rewrite (Hkeep r d Hd) in Hr. inversion Hr; subst d0.
  now exists d'.
Qed.

Lemma transform_loop_total (modules : list ref) :
  forall acc h, Forall (normalizable_in h) modules ->
    exists outs h',
      transform_loop to_exclude last_block immunity_period tempo modules acc h
      = (Ok outs, h').
Proof.
  induction modules as [|mod_ rest IH]; intros acc h Hall.
  - now exists acc, h.
  - inversion Hall as [|? ? [d [d' [Hd Hn]]] Hrest]; subst.
    rewrite transform_loop_cons.
    assert (Hone : transform_module to_exclude last_block immunity_period tempo mod_ h
                   = (Ok (List.length h), h ++ [d'])).
    { rewrite transform_module_eq, Hd, Hn. reflexivity. }
    rewrite (bind_run _ _ _ _ _ Hone).
    apply IH. eapply Forall_impl; [|exact Hrest].
    intros r [d0 [d0' [Hr Hn0]]]. exists d0, d0'. split; auto.
    rewrite nth_error_app1; auto. apply nth_error_Some. congruence.
Qed.

End TransformClaims.

(** C3: when [transform_module_into] returns and "in_immunity" is not one
    of the excluded keys, the display record of every input record whose
    [regblock] is an integer has [in_immunity] set to
    [regblock + immunity_period > last_block]. *)
Theorem transform_module_into_in_immunity `{Numerics}
    (to_exclude : list string) (last_block immunity_period tempo : Z)
    (modules outs : list ref) (h h' : heap) :
  transform_module_into to_exclude last_block immunity_period modules tempo h
    = (Ok outs, h') ->
  ~ In "in_immunity" to_exclude ->
  Forall2 (fun r o => forall d regblock,
             nth_error h r = Some d ->
             Dict.lookup "regblock" d = Some (VInt regblock) ->
             exists d',
               nth_error h' o = Some d'
               /\ Dict.lookup "in_immunity" d' =
                    Some (VBool (last_block <? regblock + immunity_period)))
    modules outs.
Proof.
  intros E Hex. apply transform_ok in E.
  eapply Forall2_impl; [|exact E]. clear E.
  intros r o Hro d regblock Hd Hreg.
  destruct (Hro d Hd) as [d' [Ho Hn]]. exists d'. split; [exact Ho|].
  apply normalize_module_ok in Hn.
  destruct Hn as [rb [deadline [flag [raw [Hrb [Hadd [Hgt [Himm _]]]]]]]].
  rewrite Hreg in Hrb. inversion Hrb; subst rb.
  simpl in Hadd. inversion Hadd; subst deadline.
  simpl in Hgt. inversion Hgt; subst flag.
  now apply Himm.
Qed.

(** C4: when [transform_module_into] returns, the display record made from
    an input record whose balance is [None] has no "balance" key at all, and
    the one made from a record with any other balance, 0 included, holds under
    "balance" what [from_nano] makes of it.  Every input record of a call
    that returns has the "balance" key: line 211 deletes it and needs it. *)
Theorem transform_module_into_balance `{Numerics}
    (to_exclude : list string) (last_block immunity_period tempo : Z)
    (modules outs : list ref) (h h' : heap) :
  transform_module_into to_exclude last_block immunity_period modules tempo h
    = (Ok outs, h') ->
  Forall2 (fun r o => forall d,
             nth_error h r = Some d ->
             exists d',
               nth_error h' o = Some d'
               /\ Dict.mem "balance" d = true
               /\ (is_none (Dict.get "balance" d) = true ->
                   Dict.mem "balance" d' = false)
               /\ (is_none (Dict.get "balance" d) = false ->
                   exists converted,
                     from_nano (Dict.get "balance" d) = Ok converted
                     /\ Dict.lookup "balance" d' = Some converted))
    modules outs.
Proof.
  intros E. apply transform_ok in E.
  eapply Forall2_impl; [|exact E]. clear E.
  intros r o Hro d Hd.
  destruct (Hro d Hd) as [d' [Ho Hn]].
  apply normalize_module_ok in Hn.
  destruct Hn as [rb [deadline [flag [raw [_ [_ [_ [_ [_ [Hraw Hbal]]]]]]]]]].
  exists d'. unfold Dict.mem, Dict.get. rewrite Hraw.
  split; [exact Ho|]. split; [reflexivity|].
  split; intros Hn; rewrite Hn in Hbal.
  - now rewrite Hbal.
  - exact Hbal.
Qed.

(** C5 (as the code has it): [transform_module_into] compares no records
    with each other.  When lines 195-211 raise nothing on any record of the
    batch taken alone, the call returns one display record per input record,
    each made from its own input record, whatever keys the records have. *)
Theorem transform_module_into_no_schema_check `{Numerics}
    (to_exclude : list string) (last_block immunity_period tempo : Z)
    (modules : list ref) (h : heap) :
  Forall (normalizable to_exclude last_block immunity_period tempo h) modules ->
  exists outs h',
    transform_module_into to_exclude last_block immunity_period modules tempo h
      = (Ok outs, h')
    /\ Forall2 (fun r o => forall d, nth_error h r = Some d ->
                  exists d',
                    nth_error h' o = Some d'
                    /\ normalize_module to_exclude last_block immunity_period tempo d
                       = (Ok tt, d'))
         modules outs.
Proof.
  intros Hall.
  destruct (transform_loop_total to_exclude last_block immunity_period tempo
              modules [] h Hall) as [outs [h' E]].
  exists outs, h'. split; [exact E|].
  now apply transform_ok.
Qed.

(** C10: [transform_module_into] writes to the copies only.  Whether it
    returns or raises, the objects that were in the heap before the call,
    the input records among them, hold the same keys and values after it. *)
Theorem transform_module_into_preserves_input `{Numerics}
    (to_exclude : list string) (last_block immunity_period tempo : Z)
    (modules : list ref) (h : heap) :
  firstn (List.length h)
    (snd (transform_module_into to_exclude last_block immunity_period modules tempo h))
    = h
  /\ forall r d,
       In r modules -> nth_error h r = Some d ->
       nth_error
         (snd (transform_module_into to_exclude last_block immunity_period modules tempo h))
         r = Some d.
Proof.
  split.
  - destruct (transform_grows to_exclude last_block immunity_period tempo modules h)
      as [ds ->].
    rewrite firstn_app, Nat.sub_diag, firstn_all. simpl. now rewrite app_nil_r.
  - intros r d _ Hd. now apply transform_keeps.
Qed.

Lemma in_immunity_not_excluded : ~ In "in_immunity" display_exclusions.
Proof. intros [E|[E|[E|[]]]]; discriminate. Defined.

Lemma transform_module_into_in_immunity_witness :
  (exists d', nth_error (snd (display_run 140 two_modules [0; 1]%nat)) 2 = Some d'
              /\ Dict.lookup "in_immunity" d' = Some (VBool true))
  /\ (exists d', nth_error (snd (display_run 200 two_modules [0; 1]%nat)) 2 = Some d'
                 /\ Dict.lookup "in_immunity" d' = Some (VBool false)).
Proof.
  split.
  - pose proof (@transform_module_into_in_immunity whole_numerics
                  display_exclusions 140 50 100 [0; 1]%nat [2; 3]%nat two_modules
                  (snd (display_run 140 two_modules [0; 1]%nat))
                  eq_refl in_immunity_not_excluded) as F.
    apply Forall2_cons_iff in F. destruct F as [Hhead _].
    exact (Hhead funded_module 100 eq_refl eq_refl).
  - pose proof (@transform_module_into_in_immunity whole_numerics
                  display_exclusions 200 50 100 [0; 1]%nat [2; 3]%nat two_modules
                  (snd (display_run 200 two_modules [0; 1]%nat))
                  eq_refl in_immunity_not_excluded) as F.
    apply Forall2_cons_iff in F. destruct F as [Hhead _].
    exact (Hhead funded_module 100 eq_refl eq_refl).
Defined.

Lemma transform_module_into_balance_witness :
  (exists d',
     nth_error (snd (display_run 140 two_modules [0; 1]%nat)) 3 = Some d'
     /\ Dict.mem "balance" d' = false)
  /\ (exists d' converted,
        nth_error (snd (display_run 140 two_modules [0; 1]%nat)) 2 = Some d'
        /\ Whole.from_nano (VInt 5000000000) = Ok converted
        /\ Dict.lookup "balance" d' = Some converted).
Proof.
  pose proof (@transform_module_into_balance whole_numerics
                display_exclusions 140 50 100 [0; 1]%nat [2; 3]%nat two_modules
                (snd (display_run 140 two_modules [0; 1]%nat)) eq_refl) as F.
  apply Forall2_cons_iff in F. destruct F as [Hfirst F].
  apply Forall2_cons_iff in F. destruct F as [Hsecond _].
  split.
  - destruct (Hsecond unfunded_module eq_refl) as [d' [Ho [_ [Hnone _]]]].
    exists d'. split; [exact Ho | exact (Hnone eq_refl)].
  - destruct (Hfirst funded_module eq_refl) as [d' [Ho [_ [_ Hsome]]]].
    destruct (Hsome eq_refl) as [converted [Hc Hl]].
    exists d', converted. auto.
Defined.

(** A record with no "balance" key at all is not a
    [ModuleInfoWithOptionalBalance]: on it line 211 raises [KeyError]. *)
Lemma transform_module_into_balance_key_missing :
  Dict.lookup "balance" balanceless_module = None
  /\ fst (display_run 140 [balanceless_module] [0%nat]) = Err (KeyError "balance").
Proof. split; reflexivity. Qed.

Lemma transform_module_into_no_schema_check_witness :
  exists outs h',
    display_run 140 [funded_module; annotated_module] [0; 1]%nat = (Ok outs, h')
    /\ Forall2 (fun r o => forall d,
                  nth_error [funded_module; annotated_module] r = Some d ->
                  exists d',
                    nth_error h' o = Some d'
                    /\ @normalize_module whole_numerics display_exclusions 140 50 100 d
                       = (Ok tt, d'))
         [0; 1]%nat outs.
Proof.
  apply (@transform_module_into_no_schema_check whole_numerics
           display_exclusions 140 50 100 [0; 1]%nat
           [funded_module; annotated_module]).
  repeat constructor.
  - exists funded_module. eexists. split; reflexivity.
  - exists annotated_module. eexists. split; reflexivity.
Defined.

(** C5, the claim as written fails: after the exclusions the second record
    has the key "delegation_fee" and the first has not, and the call returns
    two display records, of 6 and 7 keys. *)
Lemma transform_module_into_accepts_mixed_keys :
  ~ In "delegation_fee" display_exclusions
  /\ Dict.mem "delegation_fee" funded_module = false
  /\ Dict.mem "delegation_fee" annotated_module = true
  /\ fst (display_run 140 [funded_module; annotated_module] [0; 1]%nat)
     = Ok [2; 3]%nat
  /\ map (fun d => List.length (Dict.keys d))
       (skipn 2 (snd (display_run 140 [funded_module; annotated_module] [0; 1]%nat)))
     = [6; 7]%nat.
Proof.
  split; [intros [E|[E|[E|[]]]]; discriminate|].
  repeat split; reflexivity.
Qed.

Lemma transform_module_into_preserves_input_witness :
  nth_error (snd (display_run 140 two_modules [0; 1]%nat)) 1 = Some unfunded_module.
Proof.
  exact (proj2 (@transform_module_into_preserves_input whole_numerics
                  display_exclusions 140 50 100 [0; 1]%nat two_modules)
           1%nat unfunded_module (or_intror (or_introl eq_refl)) eq_refl).
Defined.

(** ** [print_module_info] *)

Section PrintFacts.
Context `{Numerics}.

Lemma on_read_ok {A : Type} (r : ref) (f : dict -> result A)
    (h h' : heap) (a : A) :
  Obj.on r (fun d => (f d, d)) h = (Ok a, h') ->
  exists d, nth_error h r = Some d /\ f d = Ok a /\ h' = h.
Proof.
  intros E. destruct (nth_error h r) as [d|] eqn:Hd.
  - rewrite (HeapFacts.on_read h r d f Hd) in E. inversion E. now exists d.
  - rewrite HeapFacts.on_dangling in E by exact Hd. discriminate.
Qed.

(** One row: the heap is only read, the stake is added to the first sum,
    and the balance to the second when it is not [None]. *)
Lemma add_module_row_ok (acc acc' : Totals) (mod_ : ref) (h h' : heap) :
  add_module_row acc mod_ h = (Ok acc', h') ->
  h' = h
  /\ exists d,
       nth_error h mod_ = Some d
       /\ add_step (Ok (total_stake acc)) (Dict.get "stake" d)
          = Ok (total_stake acc')
       /\ (if is_none (Dict.get "balance" d)
           then total_balance acc' = total_balance acc
           else add_step (Ok (total_balance acc)) (Dict.get "balance" d)
                = Ok (total_balance acc'))
       /\ added_rows acc' = added_rows acc ++ [map py_str (Dict.values d)].
Proof.
  unfold add_module_row. intros E.
  st_inv E. apply on_read_ok in Hrun. destruct Hrun as [d1 [Hd [Hstake ->]]].
  st_inv E. apply lift_ok in Hrun. destruct Hrun as [Hadd ->].
  st_inv E. apply on_read_ok in Hrun. destruct Hrun as [d2 [Hd2 [Hbal ->]]].
  same_object d2 Hd2 Hd. inversion Hbal; subst a1. clear Hbal.
  assert (Hs : Dict.get "stake" d1 = a).
  { unfold Dict.getitem in Hstake. unfold Dict.get.
    destruct (Dict.lookup "stake" d1); inversion Hstake; reflexivity. }
  st_inv E.
  assert (Hbalance :
            d = h
            /\ if is_none (Dict.get "balance" d1)
               then a1 = total_balance acc
               else add_step (Ok (total_balance acc)) (Dict.get "balance" d1) = Ok a1).
  { destruct (is_none (Dict.get "balance" d1)).
    - inversion Hrun. auto.
    - st_inv Hrun. apply on_read_ok in Hrun0. destruct Hrun0 as [d4 [Hd4 [Hb ->]]].
      same_object d4 Hd4 Hd.
      apply lift_ok in Hrun. destruct Hrun as [Haddb ->]. split; [reflexivity|].
      assert (Hg : Dict.get "balance" d1 = a2).
      { unfold Dict.getitem in Hb. unfold Dict.get.
        destruct (Dict.lookup "balance" d1); inversion Hb; reflexivity. }
      rewrite Hg. exact Haddb. }
  clear Hrun. destruct Hbalance as [-> Hbalance].
  st_inv E. apply on_read_ok in Hrun. destruct Hrun as [d3 [Hd3 [Hvals ->]]].
  same_object d3 Hd3 Hd. inversion Hvals; subst a2. clear Hvals.
  inversion E; subst acc' h'. clear E. simpl.
  split; [reflexivity|]. exists d1. rewrite Hs. repeat split; auto.
Qed.

Lemma add_module_rows_ok (mods : list ref) :
  forall acc acc' h h',
    add_module_rows acc mods h = (Ok acc', h') ->
    h' = h
    /\ exists records,
         Forall2 (fun o d => nth_error h o = Some d) mods records
         /\ fold_left add_step (stakes_of records) (Ok (total_stake acc))
            = Ok (total_stake acc')
         /\ fold_left add_step (present_balances_of records) (Ok (total_balance acc))
            = Ok (total_balance acc').
Proof.
  induction mods as [|mod_ rest IH]; intros acc acc' h h' E.
  - inversion E; subst. split; [reflexivity|]. exists []. repeat split. constructor.
  - simpl in E. st_inv E. apply add_module_row_ok in Hrun.
    destruct Hrun as [-> [rec [Hd [Hs [Hb _]]]]].
    apply IH in E. destruct E as [-> [records [Hf [Hss Hbs]]]].
    split; [reflexivity|]. exists (rec :: records).
    split; [now constructor|]. split.
    + simpl. simpl in Hs. rewrite Hs. exact Hss.
    + unfold present_balances_of. simpl.
      destruct (is_none (Dict.get "balance" rec)); simpl.
      * rewrite <- Hb. exact Hbs.
      * simpl in Hb. rewrite Hb. exact Hbs.
Qed.

End PrintFacts.

(** C8: when [print_module_info] prints a table, the list of modules is not
    empty and the caption is "total balance: ", then the text of
    [total_balance + total_stake], then the unit "J", where [total_stake] is
    the sum of the stakes of the display records and [total_balance] the sum
    of their balances, a record without a balance adding nothing. *)
Theorem print_module_info_caption `{Numerics} (client : ChainClient)
    (modules : list ref) (netuid : Z) (title : option string)
    (h h' : heap) (table : Table string) :
  print_module_info client modules netuid title h = (Ok (Some table), h') ->
  exists last_block outs records stake_sum balance_sum total,
    modules <> []
    /\ get_block client = Some last_block
    /\ transform_module_into ["stake_from"; "last_update"; "regblock"] last_block
         (get_immunity_period client netuid) modules (get_tempo client netuid) h
       = (Ok outs, h')
    /\ Forall2 (fun o d => nth_error h' o = Some d) outs records
    /\ sum_values (stakes_of records) = Ok stake_sum
    /\ sum_values (present_balances_of records) = Ok balance_sum
    /\ py_add balance_sum stake_sum = Ok total
    /\ tbl_caption table = Some ("total balance: " ++ (py_str total ++ "J"))%string.
Proof.
  unfold print_module_info. intros E.
  destruct modules as [|mod_ rest]; [inversion E|].
  destruct (get_block client) as [last_block|]; [|inversion E].
  st_inv E. destruct a as [|sample_mod others]; [inversion E|].
  st_inv E. apply on_read_ok in Hrun0. destruct Hrun0 as [_ [_ [_ ->]]].
  st_inv E. apply add_module_rows_ok in Hrun0.
  destruct Hrun0 as [-> [records [Hf [Hs Hb]]]].
  st_inv E. apply lift_ok in Hrun0. destruct Hrun0 as [Hadd ->].
  inversion E; subst table h'. clear E.
  exists last_block, (sample_mod :: others), records,
    (total_stake a0), (total_balance a0), a1.
  repeat split; auto. discriminate.
Qed.

Lemma sample_print_table : sample_print = (Ok (Some sample_table), snd sample_print).
Proof. vm_compute. reflexivity. Defined.

Lemma print_module_info_caption_witness :
  exists last_block outs records stake_sum balance_sum total,
    [0; 1]%nat <> []
    /\ get_block sample_client = Some last_block
    /\ @transform_module_into whole_numerics
         ["stake_from"; "last_update"; "regblock"] last_block
         (get_immunity_period sample_client 0) [0; 1]%nat
         (get_tempo sample_client 0) two_modules
       = (Ok outs, snd sample_print)
    /\ Forall2 (fun o d => nth_error (snd sample_print) o = Some d) outs records
    /\ @sum_values whole_numerics (@stakes_of records) = Ok stake_sum
    /\ @sum_values whole_numerics (@present_balances_of records) = Ok balance_sum
    /\ @py_add whole_numerics balance_sum stake_sum = Ok total
    /\ Some "total balance: 10.0J"
       = Some ("total balance: " ++ (@py_str whole_numerics total ++ "J"))%string.
Proof.
  exact (@print_module_info_caption whole_numerics sample_client [0; 1]%nat 0 None
           two_modules (snd sample_print) sample_table sample_print_table).
Defined.

(** * Further properties *)

(** ** [com_client]: every run *)

Lemma prefix_app (n b : string) : String.prefix n (n ++ b)%string = true.
Proof.
  induction n as [|a n IH]; simpl.
  - now destruct b.
  - destruct (ascii_dec a a); [exact IH | congruence].
Qed.

Lemma includes_prefix (n h : string) :
  String.prefix n h = true -> includes n h = true.
Proof.
  intros E. destruct h as [|x h].
  - change (includes n "") with (if String.prefix n "" then true else false).
    now rewrite E.
  - change (includes n (String x h))
      with (if String.prefix n (String x h) then true else includes n h).
    now rewrite E.
Qed.

Lemma includes_app (n a b : string) : includes n (a ++ (n ++ b))%string = true.
Proof.
  induction a as [|x a IH].
  - exact (includes_prefix n (n ++ b)%string (prefix_app n b)).
  - change (includes n (String x a ++ (n ++ b))%string)
      with (if String.prefix n (String x (a ++ (n ++ b)))
            then true else includes n (a ++ (n ++ b))%string).
    destruct (String.prefix n (String x (a ++ (n ++ b)))); [reflexivity | exact IH].
Qed.

Section ComClientRunFacts.
Context `{NodeService}.

Lemma mentions_connecting (node_url : string) :
  mentions node_url (StatusUpdate (connecting node_url)) = true.
Proof. unfold mentions, connecting. apply includes_app. Qed.

Lemma mentions_retrying (node_url : string) (current : nat) :
  mentions node_url (StatusUpdate (retrying node_url current)) = true.
Proof. unfold mentions, retrying. apply includes_app. Qed.

Lemma mentions_construct (node_url : string) :
  mentions node_url (Construct node_url) = true.
Proof. apply String.eqb_refl. Qed.

Lemma same_flags_refl (c : CustomCtx) : same_flags c c.
Proof. repeat split. Qed.

Lemma attempts_new (s s' : Session) (new : list event) :
  events s' = events s ++ new ->
  attempts s' = (attempts s + List.length (filter is_construct new))%nat.
Proof.
  unfold attempts. intros ->. now rewrite filter_app, length_app.
Qed.

Lemma status_updates_new (s s' : Session) (new : list event) :
  events s' = events s ++ new ->
  status_updates s' = (status_updates s + List.length (filter is_status new))%nat.
Proof.
  unfold status_updates. intros ->. now rewrite filter_app, length_app.
Qed.

(** What the loop does on every run: the flags stay, the new events are
    about [node_url], there is at most one constructor call per value of
    [current], and the loop ends on a client, on an exception that is not an
    [Exception], or with every call failed and the cache as it was. *)
Lemma connect_loop_run (node_url : string) (currents : list nat) :
  forall s o s',
    connect_loop node_url currents s = (o, s') ->
    same_flags (self s) (self s')
    /\ exists new,
         events s' = events s ++ new
         /\ forallb (mentions node_url) new = true
         /\ (List.length (filter is_construct new) <= List.length currents)%nat
         /\ match o with
            | Some e =>
                is_Exception e = false
                /\ _com_client (self s') = _com_client (self s)
            | None =>
                (exists c, _com_client (self s') = Some c)
                \/ (_com_client (self s') = _com_client (self s)
                    /\ List.length (filter is_construct new) = List.length currents)
            end.
Proof.
  induction currents as [|current rest IH]; intros s o s' E.
  - inversion E; subst. split; [apply same_flags_refl|].
    exists []. rewrite app_nil_r. repeat split; auto.
  - cbn [connect_loop] in E.
    match type of E with context [CommuneClient ?u ?n ?b ?w] =>
      destruct (CommuneClient u n b w) as [[client|e] w1] end.
    + inversion E; subst o s'. clear E. split; [repeat split|].
      exists [StatusUpdate (connecting node_url); Construct node_url].
      split; [simpl; now rewrite <- app_assoc|].
      split; [cbn [forallb]; now rewrite mentions_connecting, mentions_construct|].
      split; [simpl; lia|]. left. now exists client.
    + destruct (is_Exception e) eqn:He.
      * apply IH in E. destruct E as [Hf [new [Hev [Hm [Hle Ho]]]]].
        split; [exact Hf|].
        exists ([StatusUpdate (connecting node_url); Construct node_url;
                 StatusUpdate (retrying node_url current)] ++ new).
        split; [rewrite Hev; simpl; now rewrite <- !app_assoc|].
        split.
        { rewrite forallb_app, Hm. cbn [forallb].
          now rewrite mentions_connecting, mentions_construct, mentions_retrying. }
        split; [simpl; lia|].
        destruct o as [e'|]; [exact Ho|].
        destruct Ho as [Hc|[Hc Hn]]; [now left | right].
        split; [exact Hc | simpl; lia].
      * inversion E; subst o s'. clear E. split; [repeat split|].
        exists [StatusUpdate (connecting node_url); Construct node_url].
        split; [simpl; now rewrite <- app_assoc|].
        split; [cbn [forallb]; now rewrite mentions_connecting, mentions_construct|].
        split; [simpl; lia|]. split; [exact He | reflexivity].
Qed.

(** The two ways through [com_client]: the cached client, or the loop on
    the resolved URL followed by the test of line 84. *)
Lemma com_client_cases (s : Session) :
  (exists c, _com_client (self s) = Some c /\ com_client s = (Ok c, s))
  \/ (_com_client (self s) = None
      /\ exists o s',
           connect_loop (target_url s) (seq 1 5)
             (mkSession (self s)
                (snd (get_node_url (use_testnet (self s)) (world s))) (events s))
           = (o, s')
           /\ com_client s =
              (match o with
               | Some e => Err e
               | None =>
                   match _com_client (self s') with
                   | None => Err (ConnectionError "Could not connect to any node")
                   | Some c => Ok c
                   end
               end, s')).
Proof.
  unfold com_client, target_url.
  destruct (_com_client (self s)) as [c|] eqn:Hc.
  - left. now exists c.
  - right. split; [reflexivity|].
    destruct (get_node_url (use_testnet (self s)) (world s)) as [node_url w].
    cbn [fst snd].
    destruct (connect_loop node_url (seq 1 5) (mkSession (self s) w (events s)))
      as [o s'].
    exists o, s'. split; [reflexivity|].
    destruct o; [reflexivity|]. destruct (_com_client (self s')); reflexivity.
Qed.

End ComClientRunFacts.



(** X2: a client that [com_client] returns is the one it leaves in the
    cache, and the next call returns the same client without a constructor
    call, a status update or a change of the world. *)
Theorem com_client_caches `{NodeService} (s s' : Session) (c : Client) :
  com_client s = (Ok c, s') ->
  _com_client (self s') = Some c /\ com_client s' = (Ok c, s').
Proof.
  intros E.
  assert (Hc : _com_client (self s') = Some c).
  { destruct (com_client_cases s) as [[c0 [Hc0 E0]]|[_ [o [s0 [_ E0]]]]];
      rewrite E0 in E.
    - inversion E; subst. exact Hc0.
    - destruct o; [discriminate|].
      destruct (_com_client (self s0)) eqn:Hs0; inversion E; subst. exact Hs0. }
  split; [exact Hc|]. unfold com_client. now rewrite Hc.
Qed.

Lemma com_client_caches_witness :
  exists s',
    @com_client flaky_service flaky_session
      = (Ok "wss://testnet.example:443", s')
    /\ @com_client flaky_service s' = (Ok "wss://testnet.example:443", s').
Proof.
  exists (snd (@com_client flaky_service flaky_session)).
  split; [reflexivity|].
  exact (proj2 (@com_client_caches flaky_service flaky_session
                  (snd (@com_client flaky_service flaky_session))
                  "wss://testnet.example:443" eq_refl)).
Defined.

(** X3: [com_client] never changes the option flags of the context; only
    [_com_client] is written. *)
Theorem com_client_keeps_flags `{NodeService} (s : Session) :
  same_flags (self s) (self (snd (com_client s))).
Proof.
  destruct (com_client_cases s) as [[c [Hc ->]]|[Hc [o [s' [E ->]]]]]; simpl.
  - apply same_flags_refl.
  - apply connect_loop_run in E. exact (proj1 E).
Qed.


(** X5: an [Exception] that comes out of [com_client] is the
    [ConnectionError] of line 85: the exceptions of the constructor are
    caught.  It comes after exactly five constructor calls, made one after
    the other on the resolved URL and each raising an [Exception]; the world
    is the one the fifth call left, and the cache is unset. *)
Theorem com_client_exception_is_connection_error `{NodeService}
    (s s' : Session) (e : exn) :
  com_client s = (Err e, s') -> is_Exception e = true ->
  e = ConnectionError "Could not connect to any node"
  /\ _com_client (self s') = None
  /\ attempts s' = (attempts s + 5)%nat
  /\ world s'
     = world_after_calls (target_url s) 5
         (snd (get_node_url (use_testnet (self s)) (world s)))
  /\ events s' = events s ++ retry_events (target_url s) (seq 1 5)
  /\ forall i, (i < 5)%nat ->
       call_fails (target_url s)
         (snd (get_node_url (use_testnet (self s)) (world s))) i.
Proof.
  intros E He.
  destruct (com_client_exhausted s s' e E He) as [Hfix [_ [Hc [Hw [Hev Hcalls]]]]].
  split; [exact Hfix|]. split; [exact Hc|]. split.
  - rewrite (attempts_new s s' _ Hev), retry_events_attempts. reflexivity.
  - repeat split; assumption.
Qed.

Lemma com_client_exception_is_connection_error_witness :
  exists s',
    @com_client unreachable_service fresh_session
      = (Err (ConnectionError "Could not connect to any node"), s')
    /\ @_com_client unreachable_service (@self unreachable_service s') = None
    /\ @attempts unreachable_service s' = 5%nat
    /\ @world unreachable_service s' = 5%nat.
Proof.
  exists (snd (@com_client unreachable_service fresh_session)).
  split; [reflexivity|].
  destruct (@com_client_exception_is_connection_error unreachable_service
              fresh_session (snd (@com_client unreachable_service fresh_session))
              (ConnectionError "Could not connect to any node")
              eq_refl eq_refl) as [_ [Hc [Ha [Hw _]]]].
  split; [exact Hc|]. split; [exact Ha | exact Hw].
Defined.

Section ComClientRetryFacts.
Context `{NodeService}.

Lemma connect_loop_retries (node_url : string) (k : nat) (w w' : World) (c : Client) :
  fails_then_connects node_url k w c w' ->
  forall currents s,
    (k < List.length currents)%nat -> world s = w ->
    exists s',
      connect_loop node_url currents s = (None, s')
      /\ world s' = w'
      /\ _com_client (self s') = Some c
      /\ attempts s' = (attempts s + k + 1)%nat
      /\ status_updates s' = (status_updates s + 2 * k + 1)%nat.
Proof.
  induction 1 as [w w' c Hc | k w w1 w' e c Hc He Hrest IH];
    intros currents s Hk Hw; destruct currents as [|current rest];
    try (simpl in Hk; lia); cbn [connect_loop]; cbn [emit world]; rewrite Hw, Hc.
  - eexists. split; [reflexivity|]. cbn [world self set_com_client _com_client events].
    split; [reflexivity|]. split; [reflexivity|].
    unfold attempts, status_updates, emit. cbn [events].
    repeat rewrite filter_app. repeat rewrite length_app. simpl. lia.
  - rewrite He.
    match goal with |- context [connect_loop _ _ ?s1] =>
      destruct (IH rest s1) as [s' [El [Hw' [Hcache [Ha Hs]]]]];
        [simpl in Hk; lia | reflexivity |] end.
    exists s'. split; [exact El|]. split; [exact Hw'|]. split; [exact Hcache|].
    rewrite Ha, Hs. unfold attempts, status_updates, emit. cbn [events].
    repeat rewrite filter_app. repeat rewrite length_app. simpl. lia.
Qed.

End ComClientRetryFacts.

(** X6: when the cache is unset and the constructor raises an [Exception]
    [k] times, with [k] below 5, and then succeeds, [com_client] returns the
    client of that call after [k + 1] constructor calls and [2 * k + 1]
    status updates, and caches it. *)
Theorem com_client_retries_until_connected `{NodeService}
    (s : Session) (k : nat) (c : Client) (w' : World) :
  _com_client (self s) = None ->
  fails_then_connects (target_url s) k
    (snd (get_node_url (use_testnet (self s)) (world s))) c w' ->
  (k < 5)%nat ->
  exists s',
    com_client s = (Ok c, s')
    /\ world s' = w'
    /\ _com_client (self s') = Some c
    /\ attempts s' = (attempts s + k + 1)%nat
    /\ status_updates s' = (status_updates s + 2 * k + 1)%nat.
Proof.
  intros Hnone Hrun Hk.
  destruct (com_client_cases s) as [[c0 [Hc0 _]]|[_ [o [s0 [El E0]]]]];
    [congruence|].
  destruct (connect_loop_retries _ _ _ _ _ Hrun (seq 1 5)
              (mkSession (self s)
                 (snd (get_node_url (use_testnet (self s)) (world s))) (events s)))
    as [s' [El' [Hw [Hc [Ha Hs]]]]]; [simpl; lia | reflexivity |].
  rewrite El' in El. inversion El; subst o s0.
  exists s'. rewrite E0, Hc. repeat split; auto.
Qed.

Lemma flaky_fails_four_times :
  @fails_then_connects flaky_service "wss://testnet.example:443" 4 O
    "wss://testnet.example:443" 5%nat.
Proof.
  eapply (@fails_once flaky_service); [reflexivity | reflexivity |].
  eapply (@fails_once flaky_service); [reflexivity | reflexivity |].
  eapply (@fails_once flaky_service); [reflexivity | reflexivity |].
  eapply (@fails_once flaky_service); [reflexivity | reflexivity |].
  apply (@connects_now flaky_service). reflexivity.
Defined.

Lemma com_client_retries_until_connected_witness :
  exists s',
    @com_client flaky_service flaky_session = (Ok "wss://testnet.example:443", s')
    /\ @world flaky_service s' = 5%nat
    /\ @_com_client flaky_service (@self flaky_service s')
       = Some "wss://testnet.example:443"
    /\ @attempts flaky_service s' = 5%nat
    /\ @status_updates flaky_service s' = 9%nat.
Proof.
  exact (@com_client_retries_until_connected flaky_service flaky_session 4
           "wss://testnet.example:443" 5%nat eq_refl flaky_fails_four_times
           ltac:(lia)).
Defined.

(** ** [transform_module_into]: the display records *)

Ltac st_step H x s Hx :=
  apply bind_ok in H; destruct H as [x [s [Hx H]]]; cbv beta in H.

Section DisplayRecordFacts.
Context `{Numerics}.
Import Dict DictFacts.

(** [del] needs its key: a run of lines 198-199 that raises nothing had
    distinct keys to delete, all of them in the dictionary. *)
Lemma delete_keys_requires (to_exclude : list string) :
  forall d d', delete_keys to_exclude d = (Ok tt, d') ->
    NoDup to_exclude /\ forall k, In k to_exclude -> lookup k d <> None.
Proof.
  induction to_exclude as [|key rest IH]; intros d d' E.
  - split; [constructor | intros k []].
  - simpl in E. st_step E u d1 R. destruct u. apply delitem_ok in R.
    destruct R as [Hkey ->]. destruct (IH _ _ E) as [Hnd Hall]. split.
    + constructor; [|exact Hnd]. intros Hin.
      apply (Hall key Hin). apply lookup_remove_eq.
    + intros k [<-|Hk]; [exact Hkey|].
      specialize (Hall k Hk). intros Hnone. apply Hall.
      destruct (String.eqb_spec k key) as [->|Hne].
      * apply lookup_remove_eq.
      * now rewrite lookup_remove_ne.
Qed.

Lemma existsb_eqb_In (k : string) (l : list string) :
  existsb (String.eqb k) l = true <-> In k l.
Proof.
  rewrite existsb_exists. split.
  - intros [x [Hx E]]. apply String.eqb_eq in E. now subst.
  - intros Hin. exists k. split; [exact Hin | apply String.eqb_refl].
Qed.

Variables (to_exclude : list string) (last_block immunity_period tempo : Z).

Local Abbreviation normalize :=
  (normalize_module to_exclude last_block immunity_period tempo).

(** Every item of the display record, read off the record it is made of. *)
Lemma normalize_module_fields (d d' : dict) :
  normalize d = (Ok tt, d') -> display_fields to_exclude tempo d d'.
Proof.
  unfold normalize_module. intros E.
  st_step E regblock s1 R. apply getitem_ok in R. destruct R as [Hreg ->].
  st_step E deadline s1 R. apply lift_ok in R. destruct R as [Hadd ->].
  st_step E flag s1 R. apply lift_ok in R. destruct R as [Hgt ->].
  st_step E u1 s1 R. apply setitem_ok in R. subst s1.
  st_step E u2 s2 R. destruct u2.
  destruct (delete_keys_requires _ _ _ R) as [Hnd Hpres].
  apply delete_keys_ok in R. destruct R as [Hkeep Hgone].
  st_step E stake s3 R. apply getitem_ok in R. destruct R as [Hstake ->].
  st_step E su s3 R. apply lift_ok in R. destruct R as [Hsu ->].
  st_step E sr s3 R. apply lift_ok in R. destruct R as [Hsr ->].
  st_step E u3 s3 R. apply setitem_ok in R. subst s3.
  st_step E emission s4 R. apply getitem_ok in R. destruct R as [Hem ->].
  st_step E eu s4 R. apply lift_ok in R. destruct R as [Heu ->].
  st_step E er s4 R. apply lift_ok in R. destruct R as [Her ->].
  st_step E u4 s4 R. apply setitem_ok in R. subst s4.
  apply convert_balance_ok in E. destruct E as [raw [Hraw [Hother Hbal]]].
  rewrite lookup_set_ne in Hem by discriminate.
  rewrite !lookup_set_ne in Hraw by discriminate.
  assert (Hxs : ~ In "stake" to_exclude).
  { intros Hin. rewrite (Hgone _ Hin) in Hstake. discriminate. }
  assert (Hxe : ~ In "emission" to_exclude).
  { intros Hin. rewrite (Hgone _ Hin) in Hem. discriminate. }
  assert (Hxb : ~ In "balance" to_exclude).
  { intros Hin. rewrite (Hgone _ Hin) in Hraw. discriminate. }
  rewrite (Hkeep _ Hxs), lookup_set_ne in Hstake by discriminate.
  rewrite (Hkeep _ Hxe), lookup_set_ne in Hem by discriminate.
  rewrite (Hkeep _ Hxb), lookup_set_ne in Hraw by discriminate.
  constructor; try assumption.
  - intros k Hk. specialize (Hpres k Hk).
    destruct (String.eqb_spec k "in_immunity") as [->|Hne]; [now left | right].
    now rewrite lookup_set_ne in Hpres.
  - congruence.
  - exists stake, su, sr. repeat split; try assumption.
    rewrite Hother by discriminate. rewrite lookup_set_ne by discriminate.
    apply lookup_set_eq.
  - exists emission, eu, er. repeat split; try assumption.
    rewrite Hother by discriminate. apply lookup_set_eq.
  - exists raw. split; [exact Hraw|]. destruct (is_none raw).
    + split; auto.
    + destruct Hbal as [converted [_ Hl]]. rewrite Hl. split; discriminate.
  - intros Himm. rewrite Hother by discriminate.
    rewrite !lookup_set_ne by discriminate.
    rewrite (Hkeep _ Himm), lookup_set_eq. discriminate.
  - intros k Hk.
    assert (k <> "balance") by (intros ->; contradiction).
    assert (k <> "stake") by (intros ->; contradiction).
    assert (k <> "emission") by (intros ->; contradiction).
    rewrite Hother by assumption. rewrite !lookup_set_ne by assumption.
    now apply Hgone.
  - intros k Hk Hi Hs He Hb.
    rewrite Hother by assumption. rewrite !lookup_set_ne by assumption.
    rewrite (Hkeep _ Hk). now apply lookup_set_ne.
Qed.

Local Abbreviation loop :=
  (transform_loop to_exclude last_block immunity_period tempo).

(** The references of a returned batch are those of the objects the call
    has made, in the order of the input. *)
Lemma transform_loop_refs (mods : list ref) :
  forall acc h outs h',
    loop mods acc h = (Ok outs, h') ->
    outs = acc ++ seq (List.length h) (List.length mods)
    /\ List.length h' = (List.length h + List.length mods)%nat.
Proof.
  induction mods as [|mod_ rest IH]; intros acc h outs h' E.
  - inversion E; subst. simpl. rewrite app_nil_r. split; [reflexivity | lia].
  - rewrite transform_loop_cons in E. st_step E module h1 R.
    rewrite transform_module_eq in R.
    destruct (nth_error h mod_) as [d0|]; [|discriminate].
    destruct (fst (normalize_module to_exclude last_block immunity_period tempo d0));
      [|discriminate].
    inversion R; subst module h1. clear R.
    apply IH in E. destruct E as [-> Hlen]. split.
    + rewrite <- app_assoc. simpl. rewrite length_app. simpl.
      now rewrite Nat.add_1_r.
    + rewrite Hlen, length_app. simpl. lia.
Qed.

End DisplayRecordFacts.

(** X7: a returned batch has one display record per input record, in the
    order of the input, and every one of them is an object the call has
    made: no reference of the result is a reference of an input record. *)
Theorem transform_module_into_fresh_refs `{Numerics}
    (to_exclude : list string) (last_block immunity_period tempo : Z)
    (modules outs : list ref) (h h' : heap) :
  transform_module_into to_exclude last_block immunity_period modules tempo h
    = (Ok outs, h') ->
  outs = seq (List.length h) (List.length modules)
  /\ List.length h' = (List.length h + List.length modules)%nat
  /\ forall r d, nth_error h r = Some d -> ~ In r outs.
Proof.
  intros E. apply transform_loop_refs in E. destruct E as [-> Hlen].
  simpl. repeat split; auto.
  intros r d Hd Hin. apply in_seq in Hin.
  assert (r < List.length h)%nat by (apply nth_error_Some; congruence). lia.
Qed.

Lemma transform_module_into_fresh_refs_witness :
  [2; 3]%nat = seq (List.length two_modules) 2
  /\ List.length (snd (display_run 140 two_modules [0; 1]%nat)) = 4%nat
  /\ forall r d, nth_error two_modules r = Some d -> ~ In r [2; 3]%nat.
Proof.
  exact (@transform_module_into_fresh_refs whole_numerics display_exclusions
           140 50 100 [0; 1]%nat [2; 3]%nat two_modules
           (snd (display_run 140 two_modules [0; 1]%nat)) eq_refl).
Defined.

(** X8: what a call needs in order to return on a list that is not empty:
    the keys to exclude are distinct and none of them is "stake", "emission"
    or "balance", and every input record has the keys "regblock", "stake",
    "emission" and "balance" and every excluded key other than
    "in_immunity".  Otherwise the call raises. *)
Theorem transform_module_into_requires_keys `{Numerics}
    (to_exclude : list string) (last_block immunity_period tempo : Z)
    (modules outs : list ref) (h h' : heap) :
  transform_module_into to_exclude last_block immunity_period modules tempo h
    = (Ok outs, h') ->
  modules <> [] ->
  NoDup to_exclude
  /\ ~ In "stake" to_exclude /\ ~ In "emission" to_exclude
  /\ ~ In "balance" to_exclude
  /\ Forall (fun r => forall d, nth_error h r = Some d ->
               Dict.mem "regblock" d = true /\ Dict.mem "stake" d = true
               /\ Dict.mem "emission" d = true /\ Dict.mem "balance" d = true
               /\ forall k, In k to_exclude ->
                    k = "in_immunity" \/ Dict.mem k d = true)
       modules.
Proof.
  intros E Hne.
  assert (Hall : Forall (fun r => forall d, nth_error h r = Some d ->
                   exists d', normalize_module to_exclude last_block
                                immunity_period tempo d = (Ok tt, d')) modules).
  { apply transform_ok in E. clear Hne. induction E as [|r o rs os Hro _ IH];
      constructor; auto.
    intros d Hd. destruct (Hro d Hd) as [d' [_ Hn]]. now exists d'. }
  assert (Hsome : exists d d', normalize_module to_exclude last_block
                    immunity_period tempo d = (Ok tt, d')).
  { unfold transform_module_into in E. apply transform_loop_ok in E.
    destruct E as [news [_ Hf]]. destruct Hf as [|r o rs os [d [d' [_ [_ Hn]]]] _].
    - congruence.
    - now exists d, d'. }
  destruct Hsome as [d0 [d0' Hn0]]. apply normalize_module_fields in Hn0.
  split; [exact (df_distinct _ _ _ _ Hn0)|].
  split; [exact (df_stake_kept _ _ _ _ Hn0)|].
  split; [exact (df_emission_kept _ _ _ _ Hn0)|].
  split; [exact (df_balance_kept _ _ _ _ Hn0)|].
  eapply Forall_impl; [|exact Hall]. intros r Hr d Hd.
  destruct (Hr d Hd) as [d' Hn]. apply normalize_module_fields in Hn.
  destruct (df_stake _ _ _ _ Hn) as [stake [su [sr [Hstake _]]]].
  destruct (df_emission _ _ _ _ Hn) as [em [eu [er [Hem _]]]].
  destruct (df_balance _ _ _ _ Hn) as [raw [Hraw _]].
  pose proof (df_regblock _ _ _ _ Hn) as Hreg.
  unfold Dict.mem. rewrite Hstake, Hem, Hraw.
  destruct (Dict.lookup "regblock" d); [|congruence].
  repeat split; auto.
  intros k Hk. destruct (df_present _ _ _ _ Hn k Hk) as [->|Hk']; [now left | right].
  now destruct (Dict.lookup k d).
Qed.

Lemma transform_module_into_requires_keys_witness :
  NoDup display_exclusions
  /\ ~ In "stake" display_exclusions /\ ~ In "emission" display_exclusions
  /\ ~ In "balance" display_exclusions
  /\ Forall (fun r => forall d, nth_error two_modules r = Some d ->
               Dict.mem "regblock" d = true /\ Dict.mem "stake" d = true
               /\ Dict.mem "emission" d = true /\ Dict.mem "balance" d = true
               /\ forall k, In k display_exclusions ->
                    k = "in_immunity" \/ Dict.mem k d = true)
       [0; 1]%nat.
Proof.
  apply (@transform_module_into_requires_keys whole_numerics display_exclusions
           140 50 100 [0; 1]%nat [2; 3]%nat two_modules
           (snd (display_run 140 two_modules [0; 1]%nat)) eq_refl).
  discriminate.
Defined.

(** X9: the keys of a display record are those of its input record and
    "in_immunity", less the excluded keys, and less "balance" when the
    balance is [None]. *)
Theorem transform_module_into_keys `{Numerics}
    (to_exclude : list string) (last_block immunity_period tempo : Z)
    (modules outs : list ref) (h h' : heap) :
  transform_module_into to_exclude last_block immunity_period modules tempo h
    = (Ok outs, h') ->
  Forall2 (fun r o => forall d,
             nth_error h r = Some d ->
             exists d',
               nth_error h' o = Some d'
               /\ forall k,
                    Dict.mem k d' =
                    (Dict.mem k d || String.eqb k "in_immunity")
                    && negb (existsb (String.eqb k) to_exclude)
                    && negb (String.eqb k "balance"
                             && is_none (Dict.get "balance" d)))
    modules outs.
Proof.
  intros E. apply transform_ok in E.
  eapply Forall2_impl; [|exact E]. clear E.
  intros r o Hro d Hd. destruct (Hro d Hd) as [d' [Ho Hn]].
  exists d'. split; [exact Ho|]. intros k.
  apply normalize_module_fields in Hn.
  destruct (df_stake _ _ _ _ Hn) as [stake [su [sr [Hstake [_ [_ Hstake']]]]]].
  destruct (df_emission _ _ _ _ Hn) as [em [eu [er [Hem [_ [_ Hem']]]]]].
  destruct (df_balance _ _ _ _ Hn) as [raw [Hraw Hbal]].
  pose proof (df_in_immunity _ _ _ _ Hn) as Himm.
  pose proof (df_gone _ _ _ _ Hn) as Hgone.
  pose proof (df_rest _ _ _ _ Hn) as Hrest.
  unfold Dict.mem, Dict.get. rewrite Hraw.
  destruct (existsb (String.eqb k) to_exclude) eqn:Hex.
  - apply existsb_eqb_In in Hex. rewrite (Hgone k Hex).
    now rewrite andb_false_r.
  - assert (Hk : ~ In k to_exclude).
    { intros Hin. apply existsb_eqb_In in Hin. congruence. }
    destruct (String.eqb_spec k "in_immunity") as [->|Hi].
    { specialize (Himm Hk). destruct (Dict.lookup "in_immunity" d');
        [|congruence]. simpl. now rewrite orb_true_r. }
    destruct (String.eqb_spec k "balance") as [->|Hb].
    { rewrite Hraw. simpl. destruct (is_none raw) eqn:Hr.
      - now rewrite (proj2 Hbal eq_refl).
      - assert (Hl : Dict.lookup "balance" d' <> None).
        { intros Hl. apply Hbal in Hl. congruence. }
        destruct (Dict.lookup "balance" d'); [reflexivity | congruence]. }
    destruct (String.eqb_spec k "stake") as [->|Hs].
    { now rewrite Hstake, Hstake'. }
    destruct (String.eqb_spec k "emission") as [->|He].
    { now rewrite Hem, Hem'. }
    rewrite (Hrest k Hk Hi Hs He Hb). simpl.
    now rewrite orb_false_r, !andb_true_r.
Qed.

Lemma transform_module_into_keys_witness :
  exists d',
    nth_error (snd (display_run 140 two_modules [0; 1]%nat)) 3 = Some d'
    /\ Dict.mem "regblock" d' = false
    /\ Dict.mem "balance" d' = false
    /\ Dict.mem "in_immunity" d' = true
    /\ Dict.mem "name" d' = true.
Proof.
  pose proof (@transform_module_into_keys whole_numerics display_exclusions
                140 50 100 [0; 1]%nat [2; 3]%nat two_modules
                (snd (display_run 140 two_modules [0; 1]%nat)) eq_refl) as F.
  apply Forall2_cons_iff in F. destruct F as [_ F].
  apply Forall2_cons_iff in F. destruct F as [Hsecond _].
  destruct (Hsecond unfunded_module eq_refl) as [d' [Ho Hk]].
  exists d'. split; [exact Ho|].
  split; [exact (Hk "regblock")|]. split; [exact (Hk "balance")|].
  split; [exact (Hk "in_immunity") | exact (Hk "name")].
Defined.

(** X10: in a display record "stake" is the stake of the input record
    after [from_nano] and [round] to 2 digits, and "emission" is its
    emission after [from_horus] with the tempo and [round] to 4 digits. *)
Theorem transform_module_into_amounts `{Numerics}
    (to_exclude : list string) (last_block immunity_period tempo : Z)
    (modules outs : list ref) (h h' : heap) :
  transform_module_into to_exclude last_block immunity_period modules tempo h
    = (Ok outs, h') ->
  Forall2 (fun r o => forall d,
             nth_error h r = Some d ->
             exists d' stake stake_units stake_rounded
                    emission emission_units emission_rounded,
               nth_error h' o = Some d'
               /\ Dict.lookup "stake" d = Some stake
               /\ from_nano stake = Ok stake_units
               /\ py_round stake_units 2 = Ok stake_rounded
               /\ Dict.lookup "stake" d' = Some stake_rounded
               /\ Dict.lookup "emission" d = Some emission
               /\ from_horus emission tempo = Ok emission_units
               /\ py_round emission_units 4 = Ok emission_rounded
               /\ Dict.lookup "emission" d' = Some emission_rounded)
    modules outs.
Proof.
  intros E. apply transform_ok in E.
  eapply Forall2_impl; [|exact E]. clear E.
  intros r o Hro d Hd. destruct (Hro d Hd) as [d' [Ho Hn]].
  apply normalize_module_fields in Hn.
  destruct (df_stake _ _ _ _ Hn) as [stake [su [sr [Hstake [Hsu [Hsr Hstake']]]]]].
  destruct (df_emission _ _ _ _ Hn) as [em [eu [er [Hem [Heu [Her Hem']]]]]].
  exists d', stake, su, sr, em, eu, er. repeat split; assumption.
Qed.

Lemma transform_module_into_amounts_witness :
  exists d',
    nth_error (snd (display_run 140 two_modules [0; 1]%nat)) 2 = Some d'
    /\ Dict.lookup "stake" d' = Some (VFloat (Whole.encode 2))
    /\ Dict.lookup "emission" d' = Some (VFloat 0).
Proof.
  pose proof (@transform_module_into_amounts whole_numerics display_exclusions
                140 50 100 [0; 1]%nat [2; 3]%nat two_modules
                (snd (display_run 140 two_modules [0; 1]%nat)) eq_refl) as F.
  apply Forall2_cons_iff in F. destruct F as [Hfirst _].
  destruct (Hfirst funded_module eq_refl)
    as [d' [stake [su [sr [em [eu [er
         [Ho [Hs [Hsu [Hsr [Hs' [He [Heu [Her He']]]]]]]]]]]]]]].
  exists d'. split; [exact Ho|].
  inversion Hs; subst stake. inversion Hsu; subst su. inversion Hsr; subst sr.
  inversion He; subst em. inversion Heu; subst eu. inversion Her; subst er.
  split; [exact Hs' | exact He'].
Defined.

(** X11: every other item passes unchanged: a key that is not excluded and
    is none of "in_immunity", "stake", "emission" and "balance" is bound in
    the display record to what it is bound to in the input record. *)
Theorem transform_module_into_other_items `{Numerics}
    (to_exclude : list string) (last_block immunity_period tempo : Z)
    (modules outs : list ref) (h h' : heap) :
  transform_module_into to_exclude last_block immunity_period modules tempo h
    = (Ok outs, h') ->
  Forall2 (fun r o => forall d,
             nth_error h r = Some d ->
             exists d',
               nth_error h' o = Some d'
               /\ forall k,
                    ~ In k to_exclude -> k <> "in_immunity" -> k <> "stake" ->
                    k <> "emission" -> k <> "balance" ->
                    Dict.lookup k d' = Dict.lookup k d)
    modules outs.
Proof.
  intros E. apply transform_ok in E.
  eapply Forall2_impl; [|exact E]. clear E.
  intros r o Hro d Hd. destruct (Hro d Hd) as [d' [Ho Hn]].
  exists d'. split; [exact Ho|].
  apply normalize_module_fields in Hn.
  exact (df_rest _ _ _ _ Hn).
Qed.

Lemma name_not_excluded : ~ In "name" display_exclusions.
Proof. intros [E|[E|[E|[]]]]; discriminate. Defined.

Lemma transform_module_into_other_items_witness :
  exists d',
    nth_error (snd (display_run 140 two_modules [0; 1]%nat)) 2 = Some d'
    /\ Dict.lookup "name" d' = Some (VStr "alpha").
Proof.
  pose proof (@transform_module_into_other_items whole_numerics display_exclusions
                140 50 100 [0; 1]%nat [2; 3]%nat two_modules
                (snd (display_run 140 two_modules [0; 1]%nat)) eq_refl) as F.
  apply Forall2_cons_iff in F. destruct F as [Hfirst _].
  destruct (Hfirst funded_module eq_refl) as [d' [Ho Hk]].
  exists d'. split; [exact Ho|].
  apply (Hk "name" name_not_excluded); discriminate.
Defined.

(** ** [print_module_info]: the table and the heap *)

Section ReadOnlyFacts.
Context {A B : Type}.

Lemma read_only_ret (a : A) : read_only (ret a).
Proof. intros h. reflexivity. Qed.

Lemma read_only_raise (e : exn) : read_only (@raise heap A e).
Proof. intros h. reflexivity. Qed.

Lemma read_only_lift (r : result A) : read_only (lift r).
Proof. intros h. reflexivity. Qed.

Lemma read_only_bind (m : M A) (f : A -> M B) :
  read_only m -> (forall a, read_only (f a)) -> read_only (bind m f).
Proof.
  intros Hm Hf h. unfold bind. specialize (Hm h).
  destruct (m h) as [[a|e] h1]; simpl in Hm; subst h1; [apply Hf | reflexivity].
Qed.

Lemma read_only_on (r : ref) (f : dict -> result A) :
  read_only (Obj.on r (fun d => (f d, d))).
Proof.
  intros h. destruct (nth_error h r) as [d|] eqn:Hd.
  - now rewrite (HeapFacts.on_read h r d f Hd).
  - now rewrite HeapFacts.on_dangling.
Qed.

(** Reading after a computation that only adds objects only adds objects. *)
Lemma grows_then_reads (m : M A) (f : A -> M B) (h : heap) :
  (exists ds, snd (m h) = h ++ ds) -> (forall a, read_only (f a)) ->
  exists ds, snd (bind m f h) = h ++ ds.
Proof.
  intros [ds Hm] Hf. exists ds. unfold bind.
  destruct (m h) as [[a|e] h1]; simpl in Hm; subst h1; [apply Hf | reflexivity].
Qed.

End ReadOnlyFacts.

Section PrintTableFacts.
Context `{Numerics}.

Lemma read_only_add_module_row (acc : Totals) (mod_ : ref) :
  read_only (add_module_row acc mod_).
Proof.
  unfold add_module_row.
  apply read_only_bind; [apply (read_only_on mod_ (Dict.getitem "stake"))|]. intros stake.
  apply read_only_bind; [apply read_only_lift|]. intros ts.
  apply read_only_bind;
    [apply (read_only_on mod_ (fun d => Ok (Dict.get "balance" d)))|]. intros balance.
  apply read_only_bind.
  { destruct (is_none balance); [apply read_only_ret|].
    apply read_only_bind; [apply (read_only_on mod_ (Dict.getitem "balance"))|].
    intros present. apply read_only_lift. }
  intros tb.
  apply read_only_bind;
    [apply (read_only_on mod_ (fun d => Ok (Dict.values d)))|]. intros vals.
  apply read_only_ret.
Qed.

Lemma read_only_add_module_rows (mods : list ref) :
  forall acc, read_only (add_module_rows acc mods).
Proof.
  induction mods as [|mod_ rest IH]; intros acc; simpl.
  - apply read_only_ret.
  - apply read_only_bind; [apply read_only_add_module_row | exact IH].
Qed.

(** The rows added by the loop of lines 263-271: one per record, in order. *)
Lemma add_module_rows_table (mods : list ref) :
  forall acc acc' h h' records,
    add_module_rows acc mods h = (Ok acc', h') ->
    Forall2 (fun o d => nth_error h o = Some d) mods records ->
    added_rows acc' = added_rows acc ++ map row_of records.
Proof.
  induction mods as [|mod_ rest IH]; intros acc acc' h h' records E Hf.
  - inversion Hf; subst. inversion E; subst. simpl. now rewrite app_nil_r.
  - inversion Hf as [|? d0 ? records0 Hd0 Hrest]; subst.
    simpl in E. st_step E acc1 h1 R. apply add_module_row_ok in R.
    destruct R as [-> [d [Hd [_ [_ Hrows]]]]].
    same_object d Hd Hd0.
    rewrite (IH _ _ _ _ _ E Hrest), Hrows. simpl.
    now rewrite <- app_assoc.
Qed.

(** What a call that prints a table has gone through. *)
Lemma print_module_info_ok (client : ChainClient) (modules : list ref)
    (netuid : Z) (title : option string) (h h' : heap) (table : Table string) :
  print_module_info client modules netuid title h = (Ok (Some table), h') ->
  exists last_block sample_mod others sample records,
    get_block client = Some last_block
    /\ transform_module_into ["stake_from"; "last_update"; "regblock"] last_block
         (get_immunity_period client netuid) modules (get_tempo client netuid) h
       = (Ok (sample_mod :: others), h')
    /\ nth_error h' sample_mod = Some sample
    /\ Forall2 (fun o d => nth_error h' o = Some d) (sample_mod :: others) records
    /\ tbl_title table = title
    /\ tbl_columns table = Dict.keys sample
    /\ tbl_rows table = map row_of records.
Proof.
  unfold print_module_info. intros E.
  destruct modules as [|mod_ rest]; [inversion E|].
  destruct (get_block client) as [last_block|]; [|inversion E].
  st_step E outs h1 Ht. destruct outs as [|sample_mod others]; [inversion E|].
  st_step E columns h2 R. apply on_read_ok in R.
  destruct R as [sample [Hsample [Hcols ->]]].
  st_step E acc h2 Hrows.
  destruct (add_module_rows_ok _ _ _ _ _ Hrows) as [-> [records [Hf _]]].
  pose proof (add_module_rows_table _ _ _ _ _ _ Hrows Hf) as Hadded.
  st_step E total h2 R. apply lift_ok in R. destruct R as [_ ->].
  inversion E; subst table h'. clear E.
  exists last_block, sample_mod, others, sample, records.
  inversion Hcols. repeat split; auto.
Qed.

End PrintTableFacts.

(** X12: the table that [print_module_info] prints has the title it was
    given, one column per key of the first display record, and one row per
    module: the texts of the values of its display record, in the order of
    the modules. *)
Theorem print_module_info_table `{Numerics} (client : ChainClient)
    (modules : list ref) (netuid : Z) (title : option string)
    (h h' : heap) (table : Table string) :
  print_module_info client modules netuid title h = (Ok (Some table), h') ->
  exists records,
    List.length records = List.length modules
    /\ Forall2 (fun o d => nth_error h' o = Some d)
         (seq (List.length h) (List.length modules)) records
    /\ tbl_title table = title
    /\ tbl_columns table = Dict.keys (hd [] records)
    /\ tbl_rows table = map row_of records.
Proof.
  intros E. apply print_module_info_ok in E.
  destruct E as [lb [sample_mod [others [sample [records
    [_ [Ht [Hs [Hf [Htitle [Hcols Hrows]]]]]]]]]]].
  exists records.
  unfold transform_module_into in Ht. apply transform_loop_refs in Ht.
  destruct Ht as [Houts _]. simpl in Houts.
  split; [|split; [|split; [exact Htitle | split; [|exact Hrows]]]].
  - apply Forall2_length in Hf. rewrite <- Hf, Houts. now rewrite length_seq.
  - rewrite <- Houts. exact Hf.
  - rewrite Hcols. inversion Hf as [|? d0 ? ? Hd0 _]; subst. simpl.
    same_object d0 Hd0 Hs. reflexivity.
Qed.

Lemma print_module_info_table_witness :
  exists records,
    List.length records = 2%nat
    /\ Forall2 (fun o d => nth_error (snd sample_print) o = Some d) [2; 3]%nat records
    /\ tbl_title sample_table = None
    /\ tbl_columns sample_table = Dict.keys (hd [] records)
    /\ tbl_rows sample_table = map (@row_of whole_numerics) records.
Proof.
  exact (@print_module_info_table whole_numerics sample_client [0; 1]%nat 0 None
           two_modules (snd sample_print) sample_table sample_print_table).
Defined.

(** X13: [print_module_info] writes to no object that was in the heap
    before the call, whether it prints, returns early or raises. *)
Theorem print_module_info_preserves_input `{Numerics} (client : ChainClient)
    (modules : list ref) (netuid : Z) (title : option string) (h : heap) :
  firstn (List.length h)
    (snd (print_module_info client modules netuid title h)) = h.
Proof.
  assert (Hgrows : exists ds,
            snd (print_module_info client modules netuid title h) = h ++ ds).
  { unfold print_module_info.
    destruct modules as [|mod_ rest]; [exists []; simpl; now rewrite app_nil_r|].
    destruct (get_block client) as [last_block|];
      [|exists []; simpl; now rewrite app_nil_r].
    apply grows_then_reads; [apply transform_grows|].
    intros outs. destruct outs as [|sample_mod others]; [apply read_only_raise|].
    apply read_only_bind;
      [apply (read_only_on sample_mod (fun d => Ok (Dict.keys d)))|]. intros columns.
    apply read_only_bind; [apply read_only_add_module_rows|]. intros acc.
    apply read_only_bind; [apply read_only_lift|]. intros total.
    apply read_only_ret. }
  destruct Hgrows as [ds ->].
  rewrite firstn_app, Nat.sub_diag, firstn_all. simpl. now rewrite app_nil_r.
Qed.

(** X14: [print_module_info] prints nothing and raises nothing exactly when
    the list of modules is empty, and then it leaves the heap alone; on a
    list that is not empty, a node that gives no block makes it raise
    [ValueError] before any record is copied. *)
Theorem print_module_info_edges `{Numerics} (client : ChainClient)
    (modules : list ref) (netuid : Z) (title : option string) (h : heap) :
  (fst (print_module_info client modules netuid title h) = Ok None
   <-> modules = [])
  /\ (modules = [] -> snd (print_module_info client modules netuid title h) = h)
  /\ (modules <> [] -> get_block client = None ->
      print_module_info client modules netuid title h
      = (Err (ValueError "Could not get block info"), h)).
Proof.
  split; [|split].
  - split.
    + intros E. destruct modules as [|mod_ rest]; [reflexivity|]. exfalso.
      destruct (print_module_info client (mod_ :: rest) netuid title h)
        as [res h'] eqn:Ep. simpl in E. subst res.
      unfold print_module_info in Ep.
      destruct (get_block client) as [last_block|]; [|inversion Ep].
      st_step Ep outs h1 Ht. destruct outs as [|sample_mod others]; [inversion Ep|].
      st_step Ep columns h2 R. st_step Ep acc h3 R2. st_step Ep total h4 R3.
      inversion Ep.
    + intros ->. reflexivity.
  - intros ->. reflexivity.
  - intros Hne Hb. unfold print_module_info.
    destruct modules as [|mod_ rest]; [congruence|]. now rewrite Hb.
Qed.

Lemma print_module_info_edges_witness :
  @print_module_info whole_numerics blockless_client [0; 1]%nat 0 None two_modules
  = (Err (ValueError "Could not get block info"), two_modules).
Proof.
  apply (proj2 (proj2 (@print_module_info_edges whole_numerics blockless_client
                         [0; 1]%nat 0 None two_modules))).
  - discriminate.
  - reflexivity.
Defined.

(** X15: the table that [print_module_info] prints has the columns
    "in_immunity", "stake" and "emission" and has no column "stake_from",
    "last_update" or "regblock". *)
Theorem print_module_info_columns `{Numerics} (client : ChainClient)
    (modules : list ref) (netuid : Z) (title : option string)
    (h h' : heap) (table : Table string) :
  print_module_info client modules netuid title h = (Ok (Some table), h') ->
  (In "in_immunity" (tbl_columns table) /\ In "stake" (tbl_columns table)
   /\ In "emission" (tbl_columns table))
  /\ ~ In "stake_from" (tbl_columns table)
  /\ ~ In "last_update" (tbl_columns table)
  /\ ~ In "regblock" (tbl_columns table).
Proof.
  intros E. apply print_module_info_ok in E.
  destruct E as [lb [sample_mod [others [sample [records
    [_ [Ht [Hs [_ [_ [Hcols _]]]]]]]]]]].
  unfold transform_module_into in Ht. apply transform_loop_ok in Ht.
  destruct Ht as [news [Hnews Hf]]. simpl in Hnews. subst news.
  inversion Hf as [|r o rs os [d [d' [_ [Ho Hn]]]] _]; subst.
  same_object d' Ho Hs. apply normalize_module_fields in Hn.
  rewrite Hcols.
  assert (Hin : forall k, Dict.lookup k sample <> None -> In k (Dict.keys sample)).
  { intros k Hk. destruct (in_dec string_dec k (Dict.keys sample)) as [Hi|Hi]; auto.
    apply DictFacts.lookup_none_iff in Hi. contradiction. }
  assert (Hout : forall k, Dict.lookup k sample = None -> ~ In k (Dict.keys sample)).
  { intros k Hk. now apply DictFacts.lookup_none_iff. }
  destruct (df_stake _ _ _ _ Hn) as [? [? [? [_ [_ [_ Hstake]]]]]].
  destruct (df_emission _ _ _ _ Hn) as [? [? [? [_ [_ [_ Hem]]]]]].
  split; [split; [|split]|split; [|split]].
  - apply Hin. apply (df_in_immunity _ _ _ _ Hn).
    intros [E|[E|[E|[]]]]; discriminate.
  - apply Hin. congruence.
  - apply Hin. congruence.
  - apply Hout. apply (df_gone _ _ _ _ Hn). now left.
  - apply Hout. apply (df_gone _ _ _ _ Hn). right. now left.
  - apply Hout. apply (df_gone _ _ _ _ Hn). right. right. now left.
Qed.

Lemma print_module_info_columns_witness :
  (In "in_immunity" (tbl_columns sample_table) /\ In "stake" (tbl_columns sample_table)
   /\ In "emission" (tbl_columns sample_table))
  /\ ~ In "stake_from" (tbl_columns sample_table)
  /\ ~ In "last_update" (tbl_columns sample_table)
  /\ ~ In "regblock" (tbl_columns sample_table).
Proof.
  exact (@print_module_info_columns whole_numerics sample_client [0; 1]%nat 0 None
           two_modules (snd sample_print) sample_table sample_print_table).
Defined.

(** ** [remove_none_values]: the order of the keys *)

Module RemoveNoneOrder.
Import Dict DictFacts RemoveNone.

Lemma keys_app (a b : dict) : keys (a ++ b) = keys a ++ keys b.
Proof. unfold keys. apply map_app. Qed.

Lemma loop_kept (items : dict) :
  forall cleaned, NoDup (keys (cleaned ++ items)) ->
    remove_none_loop remove_none_values_of items cleaned
    = cleaned ++ kept_items items.
Proof.
  induction items as [|[key val] rest IH]; intros cleaned Hnd.
  - simpl. now rewrite app_nil_r.
  - rewrite loop_cons. simpl kept_items.
    rewrite keys_app in Hnd. simpl in Hnd.
    destruct (is_none val).
    + apply IH. rewrite keys_app. eapply NoDup_remove_1. exact Hnd.
    + assert (Hfresh : lookup key cleaned = None).
      { apply lookup_none_iff. intros Hin. apply NoDup_remove_2 in Hnd.
        apply Hnd. apply in_or_app. now left. }
      rewrite (set_fresh _ _ _ Hfresh), IH.
      * now rewrite <- app_assoc.
      * rewrite <- app_assoc, keys_app. exact Hnd.
Qed.

Lemma keys_kept_items (data : dict) :
  keys (kept_items data) = keys (filter (fun kv => negb (is_none (snd kv))) data).
Proof.
  induction data as [|[key val] rest IH]; simpl; [reflexivity|].
  destruct (is_none val); simpl; [exact IH | now rewrite IH].
Qed.

End RemoveNoneOrder.

(** X16: on a dictionary (its keys are distinct) [remove_none_values]
    keeps the entries that are not [None] in the order they had: the keys of
    the result are the keys of those entries, in that order, and a nested
    dictionary is replaced by its own cleaning. *)
Theorem remove_none_values_keeps_order (data : dict) :
  distinct_keys (Dict.keys data) = true ->
  remove_none_values data = kept_items data
  /\ Dict.keys (remove_none_values data)
     = Dict.keys (filter (fun kv => negb (is_none (snd kv))) data).
Proof.
  intros Hd. apply DictFacts.distinct_keys_NoDup in Hd.
  assert (E : remove_none_values data = kept_items data).
  { unfold remove_none_values. now rewrite (RemoveNoneOrder.loop_kept data []). }
  split; [exact E|]. rewrite E. apply RemoveNoneOrder.keys_kept_items.
Qed.

Lemma remove_none_values_keeps_order_witness :
  remove_none_values subnet_params_sample = kept_items subnet_params_sample
  /\ Dict.keys (remove_none_values subnet_params_sample)
     = ["name"; "min_burn"; "governance_config"].
Proof.
  exact (remove_none_values_keeps_order subnet_params_sample eq_refl).
Defined.

(** ** [print_table_standardize]: the shape of the table *)

Section ZipShape.
Context {A : Type}.

Lemma heads_length (rows : list (list A)) (r : list A) :
  heads rows = Some r -> List.length r = List.length rows.
Proof.
  revert r. induction rows as [|col rest IH]; intros r E; simpl in E.
  - now inversion E.
  - destruct col as [|x col]; [discriminate|].
    destruct (heads rest) as [r'|]; [|discriminate].
    inversion E; subst. simpl. now rewrite (IH r' eq_refl).
Qed.

Lemma zip_from_width (first : list A) :
  forall others,
    Forall (fun row => List.length row = S (List.length others))
      (zip_from first others).
Proof.
  induction first as [|x first' IH]; intros others; simpl; [constructor|].
  destruct (heads others) as [r|] eqn:Hh; [|constructor].
  constructor.
  - simpl. now rewrite (heads_length others r Hh).
  - specialize (IH (map (@tl A) others)). now rewrite length_map in IH.
Qed.

Lemma shortest_uniform (n : nat) (others : list (list A)) :
  Forall (fun col => List.length col = n) others ->
  fold_left (fun m col => Nat.min m (List.length col)) others n = n.
Proof.
  induction 1 as [|col rest Hc _ IH]; simpl; [reflexivity|].
  now rewrite Hc, Nat.min_id.
Qed.

End ZipShape.

(** X17: in a table that [print_table_standardize] builds, every row has
    one cell per column; and when the map is not empty and all its sequences
    have [n] items the table has [n] rows: nothing is dropped. *)
Theorem print_table_standardize_shape (A : Type) (renderable : A -> bool)
    (result : list (string * list A)) (n : nat) (table : Table A) :
  print_table_standardize renderable result = Ok table ->
  Forall (fun row => List.length row = List.length (tbl_columns table))
    (tbl_rows table)
  /\ (result <> [] ->
      Forall (fun kv => List.length (snd kv) = n) result ->
      List.length (tbl_rows table) = n).
Proof.
  unfold print_table_standardize. rewrite add_rows_eq.
  destruct (forallb (forallb renderable) (zip_star (map snd result)));
    [|discriminate].
  intros E. inversion E; subst table. clear E. simpl.
  destruct result as [|[key first] others]; simpl.
  - split; [constructor | congruence].
  - split.
    + rewrite length_map.
      pose proof (zip_from_width first (map snd others)) as W.
      now rewrite length_map in W.
    + intros _ Hall. apply Forall_cons_iff in Hall. destruct Hall as [Hfirst Hothers].
      rewrite length_zip_from. unfold shortest. simpl in Hfirst. rewrite Hfirst.
      apply shortest_uniform. apply Forall_map. exact Hothers.
Qed.

Lemma three_by_two_not_empty : three_by_two <> [].
Proof. discriminate. Defined.

Lemma print_table_standardize_shape_witness :
  exists table,
    print_table_standardize any_text three_by_two = Ok table
    /\ List.length (tbl_rows table) = 2%nat.
Proof.
  eexists. split; [reflexivity|].
  apply (proj2 (print_table_standardize_shape string any_text three_by_two 2
                  _ eq_refl)).
  - exact three_by_two_not_empty.
  - repeat constructor.
Defined.

(** ** [print_table_from_plain_dict] *)

Section PlainDictFacts.
Context `{Numerics}.

Lemma subtable_rows_eq (items : dict) :
  forall rows,
    subtable_rows items rows
    = rows ++ map (fun sub => [(fst sub ++ (": " ++ py_text (snd sub)))%string]) items.
Proof.
  induction items as [|[subkey subvalue] rest IH]; intros rows; simpl.
  - now rewrite app_nil_r.
  - rewrite IH. now rewrite <- app_assoc.
Qed.

Lemma plain_rows_eq (items : dict) :
  forall rows,
    plain_rows items rows
    = rows ++ map item_row (filter (fun kv => negb (is_dict (snd kv))) items).
Proof.
  induction items as [|[key val] rest IH]; intros rows.
  - simpl. now rewrite app_nil_r.
  - destruct val; simpl; rewrite IH; try (now rewrite <- app_assoc); reflexivity.
Qed.

Lemma nested_rows_eq (items : dict) :
  forall rows,
    nested_rows items rows
    = rows ++ map item_row (filter (fun kv => is_dict (snd kv)) items).
Proof.
  induction items as [|[key val] rest IH]; intros rows.
  - simpl. now rewrite app_nil_r.
  - destruct val; simpl; rewrite IH; try reflexivity.
    unfold item_row at 2. simpl. rewrite subtable_rows_eq. simpl.
    now rewrite <- app_assoc.
Qed.

Lemma add_columns_eq (names cols : list string) :
  fold_left (fun cs name => cs ++ [name]) names cols = cols ++ names.
Proof.
  revert cols. induction names as [|name rest IH]; intros cols; simpl.
  - now rewrite app_nil_r.
  - rewrite IH. now rewrite <- app_assoc.
Qed.

Lemma partition_length {B : Type} (p : B -> bool) (l : list B) :
  (List.length (filter (fun x => negb (p x)) l) + List.length (filter p l))%nat
  = List.length l.
Proof.
  induction l as [|x l IH]; simpl; [reflexivity|].
  destruct (p x); simpl; lia.
Qed.

End PlainDictFacts.

(** X18: the table of [print_table_from_plain_dict] has the given column
    names and one row of two cells per key of the dictionary: first the keys
    whose value is not a dictionary, in their order, each with the text of its
    value, then the keys whose value is a dictionary, in their order, each
    with a subtable of one row "subkey: subvalue" per item. *)
Theorem print_table_from_plain_dict_rows `{Numerics}
    (result : dict) (column_names : list string) :
  tbl_columns (print_table_from_plain_dict result column_names) = column_names
  /\ tbl_rows (print_table_from_plain_dict result column_names)
     = map item_row
         (filter (fun kv => negb (is_dict (snd kv))) result
          ++ filter (fun kv => is_dict (snd kv)) result)
  /\ List.length (tbl_rows (print_table_from_plain_dict result column_names))
     = List.length result
  /\ Forall (fun row => List.length row = 2%nat)
       (tbl_rows (print_table_from_plain_dict result column_names)).
Proof.
  unfold print_table_from_plain_dict. simpl.
  rewrite add_columns_eq, nested_rows_eq, plain_rows_eq. simpl.
  split; [reflexivity|]. split; [now rewrite map_app|]. split.
  - rewrite length_app, !length_map.
    apply (partition_length (fun kv => is_dict (snd kv))).
  - rewrite <- map_app. apply Forall_map. apply Forall_forall.
    intros [key val] _. unfold item_row. now destruct val.
Qed.

(** ** [tranform_network_params] and [transform_subnet_params] *)

Module ParamFacts.
Import Dict DictFacts.

Lemma nth_error_update_eq {A : Type} (l : list A) :
  forall n x y, nth_error l n = Some y -> nth_error (list_update n x l) n = Some x.
Proof.
  induction l as [|z l IH]; intros [|n] x y E; simpl in *; try discriminate; auto.
  now apply (IH n x y).
Qed.

Lemma list_update_twice {A : Type} (l : list A) :
  forall n x y, list_update n y (list_update n x l) = list_update n y l.
Proof.
  induction l as [|z l IH]; intros [|n] x y; simpl; auto.
  now rewrite IH.
Qed.

End ParamFacts.

Section ParamRuns.
Context `{Numerics} `{BalanceLib}.
Import Dict DictFacts ParamFacts.

(** The whole of a call on a record that has the governance dictionary
    and the allocation in it. *)
Lemma tranform_network_params_run (params : ref) (h : heap) (d config : dict)
    (allocation : value) :
  nth_error h params = Some d ->
  lookup "governance_config" d = Some (VDict config) ->
  lookup allocation_key config = Some allocation ->
  tranform_network_params params h
  = (dict_from_nano (percent_marked allocation config d) network_fields,
     list_update params (percent_marked allocation config d) h).
Proof.
  intros Hd Hg Ha. unfold tranform_network_params.
  assert (R1 : Obj.on params (Item.getitem "governance_config") h
               = (Ok (VDict config), h)).
  { unfold Item.getitem.
    rewrite (HeapFacts.on_read h params d (getitem "governance_config") Hd).
    unfold getitem. now rewrite Hg. }
  rewrite (bind_run _ _ _ _ _ R1).
  assert (R2 : @lift heap value (getitem allocation_key config) h = (Ok allocation, h)).
  { unfold lift, getitem. now rewrite Ha. }
  rewrite (bind_run _ _ _ _ _ R2).
  assert (R3 : Obj.on params
                 (Item.setitem "governance_config"
                    (VDict (with_percent allocation config))) h
               = (Ok tt, list_update params (percent_marked allocation config d) h)).
  { unfold Obj.on. rewrite Hd. reflexivity. }
  rewrite (bind_run _ _ _ _ _ R3).
  assert (R4 : Obj.on params (fun d0 => (Ok d0, d0))
                 (list_update params (percent_marked allocation config d) h)
               = (Ok (percent_marked allocation config d),
                  list_update params (percent_marked allocation config d) h)).
  { apply (HeapFacts.on_read _ params _ (fun d0 => Ok d0)).
    now apply (nth_error_update_eq h params _ d). }
  rewrite (bind_run _ _ _ _ _ R4). reflexivity.
Qed.

End ParamRuns.

(** X19: [tranform_network_params] writes to the dictionary it is given.
    On a record with the governance dictionary and the allocation in it, the
    caller's record holds the allocation as a text that ends in "%" after the
    call, also when [dict_from_nano] raises, and the result is computed from
    the record so changed. *)
Theorem tranform_network_params_writes_input `{Numerics} `{BalanceLib}
    (params : ref) (h : heap) (d config : dict) (allocation : value) :
  nth_error h params = Some d ->
  Dict.lookup "governance_config" d = Some (VDict config) ->
  Dict.lookup allocation_key config = Some allocation ->
  fst (tranform_network_params params h)
    = dict_from_nano (percent_marked allocation config d) network_fields
  /\ nth_error (snd (tranform_network_params params h)) params
     = Some (percent_marked allocation config d)
  /\ Dict.lookup allocation_key (with_percent allocation config)
     = Some (VStr (py_text allocation ++ "%")).
Proof.
  intros Hd Hg Ha.
  rewrite (tranform_network_params_run params h d config allocation Hd Hg Ha).
  simpl. split; [reflexivity|]. split.
  - now apply (ParamFacts.nth_error_update_eq h params _ d).
  - apply DictFacts.lookup_set_eq.
Qed.

Lemma tranform_network_params_writes_input_witness :
  exists d',
    nth_error (snd (@tranform_network_params whole_numerics whole_balance 0%nat
                      [network_params_sample])) 0%nat = Some d'
    /\ Dict.lookup "governance_config" d'
       = Some (VDict [("proposal_cost", VInt 10000000000);
                      ("proposal_reward_treasury_allocation", VStr "2%")]).
Proof.
  destruct (@tranform_network_params_writes_input whole_numerics whole_balance 0%nat
              [network_params_sample] network_params_sample
              [("proposal_cost", VInt 10000000000);
               ("proposal_reward_treasury_allocation", VInt 2)]
              (VInt 2) eq_refl eq_refl eq_refl) as [_ [Hobj _]].
  eexists. split; [exact Hobj | reflexivity].
Defined.

(** X20: [tranform_network_params] is not idempotent on the caller's
    record: after a second call on the same record the allocation is the
    text of the first call with a second "%" after it. *)
Theorem tranform_network_params_twice `{Numerics} `{BalanceLib}
    (params : ref) (h : heap) (d config : dict) (allocation : value) :
  nth_error h params = Some d ->
  Dict.lookup "governance_config" d = Some (VDict config) ->
  Dict.lookup allocation_key config = Some allocation ->
  exists d2 config2,
    nth_error
      (snd (tranform_network_params params
              (snd (tranform_network_params params h)))) params = Some d2
    /\ Dict.lookup "governance_config" d2 = Some (VDict config2)
    /\ Dict.lookup allocation_key config2
       = Some (VStr ((py_text allocation ++ "%") ++ "%")).
Proof.
  intros Hd Hg Ha.
  rewrite (tranform_network_params_run params h d config allocation Hd Hg Ha).
  cbn [snd].
  rewrite (tranform_network_params_run params _
             (percent_marked allocation config d)
             (with_percent allocation config)
             (VStr (py_text allocation ++ "%"))).
  - cbn [snd]. rewrite ParamFacts.list_update_twice.
    eexists. eexists.
    split; [apply (ParamFacts.nth_error_update_eq h params _ d Hd)|].
    split; [apply DictFacts.lookup_set_eq|].
    apply DictFacts.lookup_set_eq.
  - now apply (ParamFacts.nth_error_update_eq h params _ d).
  - apply DictFacts.lookup_set_eq.
  - apply DictFacts.lookup_set_eq.
Qed.

Lemma tranform_network_params_twice_witness :
  exists d2 config2,
    nth_error
      (snd (@tranform_network_params whole_numerics whole_balance 0%nat
              (snd (@tranform_network_params whole_numerics whole_balance 0%nat
                      [network_params_sample])))) 0%nat = Some d2
    /\ Dict.lookup "governance_config" d2 = Some (VDict config2)
    /\ Dict.lookup allocation_key config2 = Some (VStr "2%%").
Proof.
  exact (@tranform_network_params_twice whole_numerics whole_balance 0%nat
           [network_params_sample] network_params_sample
           [("proposal_cost", VInt 10000000000);
            ("proposal_reward_treasury_allocation", VInt 2)]
           (VInt 2) eq_refl eq_refl eq_refl).
Defined.

(** X21: a record without "governance_config", or whose governance
    dictionary has no allocation, makes [tranform_network_params] raise
    [KeyError] with that key, and the record is left as it was. *)
Theorem tranform_network_params_missing_key `{Numerics} `{BalanceLib}
    (params : ref) (h : heap) (d : dict) :
  nth_error h params = Some d ->
  (Dict.lookup "governance_config" d = None ->
   tranform_network_params params h = (Err (KeyError "governance_config"), h))
  /\ (forall config,
        Dict.lookup "governance_config" d = Some (VDict config) ->
        Dict.lookup allocation_key config = None ->
        tranform_network_params params h = (Err (KeyError allocation_key), h)).
Proof.
  intros Hd. unfold tranform_network_params. split.
  - intros Hg. unfold bind, Item.getitem.
    rewrite (HeapFacts.on_read h params d (Dict.getitem "governance_config") Hd).
    unfold Dict.getitem. now rewrite Hg.
  - intros config Hg Ha. unfold bind, Item.getitem.
    rewrite (HeapFacts.on_read h params d (Dict.getitem "governance_config") Hd).
    unfold Dict.getitem, lift. now rewrite Hg, Ha.
Qed.

Lemma tranform_network_params_missing_key_witness :
  @tranform_network_params whole_numerics whole_balance 0%nat [subnet_params_sample]
  = (Err (KeyError allocation_key), [subnet_params_sample]).
Proof.
  exact (proj2 (@tranform_network_params_missing_key whole_numerics whole_balance
                  0%nat [subnet_params_sample] subnet_params_sample eq_refl)
           [("vote_mode", VStr "Authority")] eq_refl eq_refl).
Defined.

(** X22: for [transform_subnet_params] a parameter that is [None] is as
    good as absent: cleaning the parameters beforehand changes nothing, and
    two dictionaries (with distinct keys) that keep the same entries give the
    same result. *)
Theorem transform_subnet_params_ignores_none `{BalanceLib} (params other : dict) :
  transform_subnet_params (remove_none_values params)
  = transform_subnet_params params
  /\ (distinct_keys (Dict.keys params) = true ->
      distinct_keys (Dict.keys other) = true ->
      kept_items params = kept_items other ->
      transform_subnet_params params = transform_subnet_params other).
Proof.
  unfold transform_subnet_params. split.
  - rewrite (RemoveNoneClosure.remove_none_values_fixed (remove_none_values params));
      [reflexivity | apply RemoveNoneClosure.remove_none_values_clean].
  - intros Hp Ho Hk.
    apply DictFacts.distinct_keys_NoDup in Hp, Ho.
    unfold remove_none_values.
    rewrite (RemoveNoneOrder.loop_kept params []), (RemoveNoneOrder.loop_kept other []);
      auto.
    simpl. now rewrite Hk.
Qed.

Lemma transform_subnet_params_ignores_none_witness :
  @transform_subnet_params whole_balance subnet_params_sample
  = @transform_subnet_params whole_balance
      [("name", VStr "commune"); ("min_burn", VInt 4000000000);
       ("governance_config", VDict [("vote_mode", VStr "Authority")])].
Proof.
  exact (proj2 (@transform_subnet_params_ignores_none whole_balance
                  subnet_params_sample
                  [("name", VStr "commune"); ("min_burn", VInt 4000000000);
                   ("governance_config", VDict [("vote_mode", VStr "Authority")])])
           eq_refl eq_refl eq_refl).
Defined.

(** ** [transform_module_into]: when it returns *)

Section ReturnFacts.
Context `{Numerics}.
Import Dict DictFacts.

Lemma delete_keys_total (to_exclude : list string) :
  forall d, NoDup to_exclude ->
    (forall k, In k to_exclude -> lookup k d <> None) ->
    exists d', delete_keys to_exclude d = (Ok tt, d').
Proof.
  induction to_exclude as [|key rest IH]; intros d Hnd Hall.
  - now exists d.
  - inversion Hnd as [|? ? Hkey Hrest]; subst.
    assert (Hdel : Item.delitem key d = (Ok tt, remove key d)).
    { unfold Item.delitem, delitem, mem.
      specialize (Hall key (or_introl eq_refl)).
      now destruct (lookup key d). }
    destruct (IH (remove key d) Hrest) as [d' E].
    { intros k Hk. rewrite lookup_remove_ne; [apply Hall; now right|].
      intros ->. contradiction. }
    exists d'. simpl. now rewrite (bind_run _ _ _ _ _ Hdel).
Qed.

Lemma getitem_run (k : string) (d : dict) (v : value) :
  lookup k d = Some v -> Item.getitem k d = (Ok v, d).
Proof. intros E. unfold Item.getitem, getitem. now rewrite E. Qed.

Lemma convert_balance_total (d : dict) (raw : value) :
  lookup "balance" d = Some raw ->
  (is_none raw = false -> exists converted, from_nano raw = Ok converted) ->
  exists d', convert_balance d = (Ok tt, d').
Proof.
  intros Hraw Hconv. unfold convert_balance, bind, Item.get, get.
  rewrite Hraw. destruct (is_none raw) eqn:Hn.
  - exists (remove "balance" d). unfold Item.delitem, delitem, mem. now rewrite Hraw.
  - destruct (Hconv eq_refl) as [converted Hc].
    rewrite (getitem_run _ _ _ Hraw). unfold lift. rewrite Hc.
    now exists (set "balance" converted d).
Qed.

Lemma normalize_module_total (to_exclude : list string)
    (last_block immunity_period tempo : Z) (d : dict) :
  NoDup to_exclude ->
  ~ In "stake" to_exclude -> ~ In "emission" to_exclude ->
  ~ In "balance" to_exclude ->
  convertible_module to_exclude last_block immunity_period tempo d ->
  exists d',
    normalize_module to_exclude last_block immunity_period tempo d = (Ok tt, d').
Proof.
  intros Hnd Hxs Hxe Hxb
    [[regblock [deadline [flag [Hreg [Hadd Hgt]]]]]
     [Hpres [[stake [su [sr [Hstake [Hsu Hsr]]]]]
     [[em [eu [er [Hem [Heu Her]]]]] [raw [Hraw Hconv]]]]]].
  unfold normalize_module.
  rewrite (bind_run _ _ _ _ _ (getitem_run _ _ _ Hreg)).
  unfold lift at 1. unfold bind at 1. rewrite Hadd.
  unfold lift at 1. unfold bind at 1. rewrite Hgt.
  unfold Item.setitem at 1. unfold bind at 1.
  destruct (delete_keys_total to_exclude (set "in_immunity" flag d) Hnd)
    as [d2 Hdel].
  { intros k Hk. destruct (Hpres k Hk) as [->|Hk'].
    - rewrite lookup_set_eq. discriminate.
    - destruct (String.eqb_spec k "in_immunity") as [->|Hne].
      + rewrite lookup_set_eq. discriminate.
      + now rewrite lookup_set_ne. }
  rewrite (bind_run _ _ _ _ _ Hdel).
  destruct (delete_keys_ok _ _ _ Hdel) as [Hkeep _].
  assert (Hs2 : lookup "stake" d2 = Some stake).
  { rewrite (Hkeep _ Hxs), lookup_set_ne by discriminate. exact Hstake. }
  assert (He2 : lookup "emission" d2 = Some em).
  { rewrite (Hkeep _ Hxe), lookup_set_ne by discriminate. exact Hem. }
  assert (Hb2 : lookup "balance" d2 = Some raw).
  { rewrite (Hkeep _ Hxb), lookup_set_ne by discriminate. exact Hraw. }
  rewrite (bind_run _ _ _ _ _ (getitem_run _ _ _ Hs2)).
  unfold lift at 1. unfold bind at 1. rewrite Hsu.
  unfold lift at 1. unfold bind at 1. rewrite Hsr.
  unfold Item.setitem at 1. unfold bind at 1.
  assert (He3 : lookup "emission" (set "stake" sr d2) = Some em).
  { rewrite lookup_set_ne by discriminate. exact He2. }
  rewrite (bind_run _ _ _ _ _ (getitem_run _ _ _ He3)).
  unfold lift at 1. unfold bind at 1. rewrite Heu.
  unfold lift at 1. unfold bind at 1. rewrite Her.
  unfold Item.setitem at 1. unfold bind at 1.
  apply (convert_balance_total _ raw); [|exact Hconv].
  rewrite !lookup_set_ne by discriminate. exact Hb2.
Qed.

End ReturnFacts.

(** X23: [transform_module_into] returns whenever the keys to exclude are
    distinct, none of them is "stake", "emission" or "balance", and every
    input record has the excluded keys and the items "regblock", "stake",
    "emission" and "balance" with values on which the additions and
    conversions raise nothing. *)
Theorem transform_module_into_returns `{Numerics}
    (to_exclude : list string) (last_block immunity_period tempo : Z)
    (modules : list ref) (h : heap) :
  NoDup to_exclude ->
  ~ In "stake" to_exclude -> ~ In "emission" to_exclude ->
  ~ In "balance" to_exclude ->
  Forall (fun r => exists d,
            nth_error h r = Some d
            /\ convertible_module to_exclude last_block immunity_period tempo d)
    modules ->
  exists outs h',
    transform_module_into to_exclude last_block immunity_period modules tempo h
    = (Ok outs, h').
Proof.
  intros Hnd Hxs Hxe Hxb Hall.
  apply transform_loop_total.
  eapply Forall_impl; [|exact Hall].
  intros r [d [Hd Hc]].
  destruct (normalize_module_total _ _ _ _ d Hnd Hxs Hxe Hxb Hc) as [d' Hn].
  now exists d, d'.
Qed.

Lemma display_exclusions_distinct : NoDup display_exclusions.
Proof.
  apply DictFacts.distinct_keys_NoDup. reflexivity.
Defined.

Lemma display_exclusions_keep (k : string) :
  existsb (String.eqb k) display_exclusions = false -> ~ In k display_exclusions.
Proof.
  intros E Hin.
  assert (X : existsb (String.eqb k) display_exclusions = true).
  { apply existsb_exists. exists k. split; [exact Hin | apply String.eqb_refl]. }
  rewrite E in X. discriminate X.
Defined.

Lemma funded_module_convertible :
  @convertible_module whole_numerics display_exclusions 140 50 100 funded_module.
Proof.
  split; [exists (VInt 100), (VInt 150), (VBool true); repeat split|].
  split.
  { intros k [<-|[<-|[<-|[]]]]; right; discriminate. }
  split; [eexists; eexists; eexists; repeat split; reflexivity|].
  split; [eexists; eexists; eexists; repeat split; reflexivity|].
  exists (VInt 5000000000). split; [reflexivity|].
  intros _. eexists. reflexivity.
Defined.

Lemma transform_module_into_returns_witness :
  exists outs h', display_run 140 [funded_module] [0%nat] = (Ok outs, h').
Proof.
  apply (@transform_module_into_returns whole_numerics display_exclusions
           140 50 100 [0%nat] [funded_module]
           display_exclusions_distinct
           (display_exclusions_keep "stake" eq_refl)
           (display_exclusions_keep "emission" eq_refl)
           (display_exclusions_keep "balance" eq_refl)).
  constructor; [|constructor].
  exists funded_module. split; [reflexivity | exact funded_module_convertible].
Defined.
